(** * Draft extraction in [write.mjs]

    A shallow embedding of the draft extractor of [src/write.mjs]
    ([extractJsonFlexible], [repairJson], [sanitizeTitle],
    [deriveTitleFromText] and the record-building part of [main]) together
    with the parts of the JavaScript run time it relies on: strings as
    sequences of UTF-16 code units, [String.prototype.trim], the regular
    expressions of the file (run by a backtracking matcher), [JSON.parse],
    [String(...)], truthiness and [Set].

    Exceptions are explicit: every operation that can throw in JavaScript
    returns a [completion]. *)

From Stdlib Require Import Ascii String.
From Stdlib Require Import List NArith Bool Arith Lia.
Import ListNotations.

Set Implicit Arguments.
Set Warnings "-register-all".

(** ** Strings *)

(** A JavaScript string is a sequence of 16-bit code units. *)
Definition codeunit := N.
Definition jsstring := list codeunit.

(** ASCII text of this development as a JavaScript string, one code unit
    for each character. *)
Fixpoint u (s : string) : jsstring :=
  match s with
  | EmptyString => []
  | String a r => N_of_ascii a :: u r
  end.

Arguments u s%_string.

(** JSON text is written below with an apostrophe where the text has a
    double quote: [dq] puts the double quotes (code unit 34) back. *)
Definition dq (s : jsstring) : jsstring :=
  map (fun c => if (c =? 39)%N then 34%N else c) s.

Definition LF : codeunit := 10%N.
Definition CR : codeunit := 13%N.
Definition NBSP : codeunit := 160%N.
Definition ZWSP : codeunit := 0x200B%N.

Definition jsstring_eqb (a b : jsstring) : bool :=
  if list_eq_dec N.eq_dec a b then true else false.

Definition isEmpty (s : jsstring) : bool :=
  match s with [] => true | _ => false end.

(** [WhiteSpace] and [LineTerminator] of ECMAScript: what [trim] strips and
    what [\s] matches. U+200B is not among them. *)
Definition isWhiteSpace (c : codeunit) : bool :=
  ((c =? 9) || (c =? 10) || (c =? 11) || (c =? 12) || (c =? 13) || (c =? 32)
   || (c =? 160) || (c =? 0x1680) || ((0x2000 <=? c) && (c <=? 0x200A))
   || (c =? 0x2028) || (c =? 0x2029) || (c =? 0x202F) || (c =? 0x205F)
   || (c =? 0x3000) || (c =? 0xFEFF))%N.

Fixpoint trimStart (s : jsstring) : jsstring :=
  match s with
  | [] => []
  | c :: r => if isWhiteSpace c then trimStart r else s
  end.

Definition trimEnd (s : jsstring) : jsstring := rev (trimStart (rev s)).

(** [s.trim()] *)
Definition trim (s : jsstring) : jsstring := trimEnd (trimStart s).

(** [s.slice(from, to)] for [0 <= from] and [0 <= to]. *)
Definition slice (s : jsstring) (from to : nat) : jsstring :=
  firstn (to - from) (skipn from s).

(** [parts.join(sep)] on an array of strings. *)
Fixpoint join (sep : jsstring) (parts : list jsstring) : jsstring :=
  match parts with
  | [] => []
  | [p] => p
  | p :: rest => p ++ sep ++ join sep rest
  end.

(** [s.indexOf(c)] and [s.lastIndexOf(c)] for a one-unit pattern;
    [None] is JavaScript's [-1]. *)
Fixpoint indexOf (c : codeunit) (s : jsstring) : option nat :=
  match s with
  | [] => None
  | x :: r => if (x =? c)%N then Some 0
              else match indexOf c r with Some i => Some (S i) | None => None end
  end.

Definition lastIndexOf (c : codeunit) (s : jsstring) : option nat :=
  match indexOf c (rev s) with
  | Some i => Some (length s - 1 - i)
  | None => None
  end.

(** [s.replace(/c/g, '')] for a pattern that is one literal code unit. *)
Definition removeAll (c : codeunit) (s : jsstring) : jsstring :=
  filter (fun x => negb (x =? c)%N) s.

(** ** Completions *)

Inductive error := SyntaxError | TypeError.

Inductive completion (A : Type) : Type :=
| Normal (a : A)
| Throw (e : error).

Arguments Normal {A} a.
Arguments Throw {A} e.

Definition bind {A B} (c : completion A) (k : A -> completion B) : completion B :=
  match c with
  | Normal a => k a
  | Throw e => Throw e
  end.

Notation "x <- c ;; k" := (bind c (fun x => k))
  (at level 61, c at next level, right associativity).

Fixpoint mapM {A B} (f : A -> completion B) (l : list A) : completion (list B) :=
  match l with
  | [] => Normal []
  | a :: r => b <- f a ;; bs <- mapM f r ;; Normal (b :: bs)
  end.

(** ** Values *)

(** The values [JSON.parse] builds, and [undefined]. A number is kept as the
    literal it was read from; what the IEEE double it denotes prints as and
    whether it is zero is given by [NumberSemantics]. *)
Inductive value :=
| VUndefined
| VNull
| VBool (b : bool)
| VNumber (literal : jsstring)
| VString (s : jsstring)
| VArray (elements : list value)
| VObject (properties : list (jsstring * value)).

Class NumberSemantics := {
  (** [String(x)] for the double a JSON number literal denotes *)
  NumberToString : jsstring -> jsstring;
  (** whether that double is [+0] or [-0] *)
  NumberIsZero : jsstring -> bool
}.

(** Own property [key] of an object [JSON.parse] built: of two members with
    the same name the later one stays. *)
Fixpoint ownProperty (key : jsstring) (props : list (jsstring * value)) : option value :=
  match props with
  | [] => None
  | (k, v) :: rest =>
      match ownProperty key rest with
      | Some w => Some w
      | None => if jsstring_eqb k key then Some v else None
      end
  end.

(** What reading the property [key] of such an object gives, for a name that
    no built-in prototype defines ([title], [draftBody], [tags]). *)
Definition member (key : jsstring) (props : list (jsstring * value)) : value :=
  match ownProperty key props with
  | Some w => w
  | None => VUndefined
  end.

(** [v.key] for such a name: the member of an object, [undefined] on any
    other value, a [TypeError] on [null] and [undefined]. *)
Definition Get (v : value) (key : jsstring) : completion value :=
  match v with
  | VUndefined | VNull => Throw TypeError
  | VObject props => Normal (member key props)
  | _ => Normal VUndefined
  end.

(** [Array.prototype.join] with a comma, [element] converting one element. *)
Definition joinElements (element : value -> completion jsstring)
  : list value -> completion jsstring :=
  fix joined (l : list value) : completion jsstring :=
    match l with
    | [] => Normal []
    | [e] => element e
    | e :: r => a <- element e ;; b <- joined r ;; Normal (a ++ u "," ++ b)
    end.

Section Conversions.
Context {NS : NumberSemantics}.

(** [ToBoolean]: what [if (v)], [!v] and [v || w] test. *)
Definition ToBoolean (v : value) : bool :=
  match v with
  | VUndefined | VNull => false
  | VBool b => b
  | VNumber x => negb (NumberIsZero x)
  | VString s => negb (isEmpty s)
  | VArray _ | VObject _ => true
  end.

(** [String(v)]. An array joins its elements with a comma, [null] printing as
    nothing there. An object prints through [Object.prototype.toString]
    unless it has an own member [toString]: that member is JSON data, hence
    not callable, [valueOf] returns the object itself, and the conversion
    throws a [TypeError]. The recursion is not bounded: the [RangeError] of
    an engine whose stack an array nested thousands deep exhausts is not
    modelled, and the conversion returns here. *)
Fixpoint ToString (v : value) : completion jsstring :=
  match v with
  | VUndefined => Normal (u "undefined")
  | VNull => Normal (u "null")
  | VBool true => Normal (u "true")
  | VBool false => Normal (u "false")
  | VNumber x => Normal (NumberToString x)
  | VString s => Normal s
  | VArray l =>
      joinElements
        (fun e => match e with
                  | VUndefined | VNull => Normal []
                  | _ => ToString e
                  end) l
  | VObject props =>
      match ownProperty (u "toString") props with
      | Some _ => Throw TypeError
      | None => Normal (u "[object Object]")
      end
  end.

(** [String(v || '')] *)
Definition StringOrEmpty (v : value) : completion jsstring :=
  if ToBoolean v then ToString v else Normal [].

End Conversions.

(** The values [String] converts: all but an object with a member named
    [toString], and an array that holds such an object at any depth. *)
Fixpoint convertible (v : value) : bool :=
  match v with
  | VArray l =>
      (fix all (l : list value) : bool :=
         match l with
         | [] => true
         | e :: r => convertible e && all r
         end) l
  | VObject props =>
      match ownProperty (u "toString") props with
      | Some _ => false
      | None => true
      end
  | _ => true
  end.

(** ** Regular expressions *)

(** The constructs the regular expressions of [write.mjs] use, and a
    backtracking matcher with the priorities of ECMAScript: the left
    alternative first, a greedy star iterating before it gives up, a lazy
    star giving up before it iterates, no iteration that matches the empty
    string. An iteration of a star therefore consumes a code unit, and a
    star at [st] iterates [length (rest st)] times at most: this bounds its
    loop ([RegExpFacts.star_bound_enough] below). *)
Module RegExp.

Inductive regex :=
| Chr (p : codeunit -> bool)     (* one code unit of a class *)
| Bol                            (* ^ without the m flag *)
| Eol                            (* $ without the m flag *)
| Eps
| Seq (r1 r2 : regex)
| Alt (r1 r2 : regex)
| Star (greedy : bool) (r : regex)
| Group (r : regex).             (* the capturing group, numbered 1 *)

Record mstate := MState {
  pos : nat;                     (* index of the next code unit *)
  rest : jsstring;               (* the input from there *)
  capture : option jsstring      (* what group 1 matched, if it took part *)
}.

(** A state of a match on an input of [N] code units. *)
Definition within (N : nat) (st : mstate) : Prop := pos st + length (rest st) = N.

(** The iterations of a star over [body], with [n] of them left at most. *)
Definition iterate {A} (greedy : bool)
  (body : mstate -> (mstate -> option A) -> option A) (k : mstate -> option A)
  : nat -> mstate -> option A :=
  fix loop (n : nat) (st : mstate) : option A :=
    let again :=
      match n with
      | 0 => None
      | S n' => body st (fun st1 => if pos st <? pos st1 then loop n' st1 else None)
      end in
    if greedy
    then match again with Some a => Some a | None => k st end
    else match k st with Some a => Some a | None => again end.

Fixpoint run {A} (r : regex) (st : mstate) (k : mstate -> option A) : option A :=
  match r with
  | Chr p =>
      match rest st with
      | c :: s' => if p c then k (MState (S (pos st)) s' (capture st)) else None
      | [] => None
      end
  | Bol => if pos st =? 0 then k st else None
  | Eol => match rest st with [] => k st | _ => None end
  | Eps => k st
  | Seq r1 r2 => run r1 st (fun st1 => run r2 st1 k)
  | Alt r1 r2 =>
      match run r1 st k with
      | Some a => Some a
      | None => run r2 st k
      end
  | Star greedy r1 => iterate greedy (run r1) k (length (rest st)) st
  | Group r1 =>
      run r1 st (fun st1 =>
        k (MState (pos st1) (rest st1) (Some (firstn (pos st1 - pos st) (rest st)))))
  end.

(** A match that starts at index [i] of [s]. *)
Definition matchAt (r : regex) (s : jsstring) (i : nat) : option mstate :=
  run r (MState i (skipn i s) None) Some.

Fixpoint searchFrom (r : regex) (s : jsstring) (i more : nat) : option (nat * mstate) :=
  match matchAt r s i with
  | Some st => Some (i, st)
  | None =>
      match more with
      | 0 => None
      | S more' => searchFrom r s (S i) more'
      end
  end.

(** [RegExpBuiltinExec] with [lastIndex = from]: the leftmost match at or
    after [from], as the index it starts at and the state it ends in. *)
Definition exec (r : regex) (s : jsstring) (from : nat) : option (nat * mstate) :=
  if from <=? length s then searchFrom r s from (length s - from) else None.

(** [r.test(s)] *)
Definition test (r : regex) (s : jsstring) : bool :=
  match exec r s 0 with Some _ => true | None => false end.

(** [s.match(r)[1]] for [r] without the g flag: [None] when there is no
    match, [Some None] when group 1 took no part in it. *)
Definition match1 (r : regex) (s : jsstring) : option (option jsstring) :=
  match exec r s 0 with
  | Some (_, st) => Some (capture st)
  | None => None
  end.

(** [s.replace(r, '')] for [r] without the g flag. *)
Definition replaceFirst (r : regex) (s : jsstring) : jsstring :=
  match exec r s 0 with
  | Some (i, st) => firstn i s ++ rest st
  | None => s
  end.

(** [s.replace(r, '')] for [r] with the g flag, from index [from] on: after
    an empty match the search moves one code unit ahead. Every round moves
    [from] ahead, so [length s + 2] rounds are never used up
    ([RegExpFacts.replaceAll_bound_enough] below). *)
Fixpoint replaceFrom (r : regex) (s : jsstring) (from fuel : nat) : jsstring :=
  match fuel with
  | 0 => skipn from s
  | S fuel' =>
      match exec r s from with
      | None => skipn from s
      | Some (i, st) =>
          slice s from i ++
          (if pos st =? i
           then firstn 1 (skipn i s) ++ replaceFrom r s (S i) fuel'
           else replaceFrom r s (pos st) fuel')
      end
  end.

Definition replaceAll (r : regex) (s : jsstring) : jsstring :=
  replaceFrom r s 0 (length s + 2).

(** [s.split(r)]: [p] is where the current piece starts, [q] where a
    separator is looked for. Of two rounds in a row one moves [q] ahead, so
    [2 * length s + 2] rounds are never used up
    ([RegExpFacts.split_bound_enough] below). *)
Fixpoint splitFrom (r : regex) (s : jsstring) (p q fuel : nat) : list jsstring :=
  match fuel with
  | 0 => [skipn p s]
  | S fuel' =>
      if length s <=? q then [skipn p s]
      else match matchAt r s q with
           | None => splitFrom r s p (S q) fuel'
           | Some st =>
               let e := Nat.min (pos st) (length s) in
               if e =? p then splitFrom r s p (S q) fuel'
               else slice s p q :: splitFrom r s e e fuel'
           end
  end.

Definition split (r : regex) (s : jsstring) : list jsstring :=
  match s with
  | [] => match matchAt r [] 0 with Some _ => [] | None => [[]] end
  | _ => splitFrom r s 0 0 (2 * length s + 2)
  end.

(** Notation for writing the expressions down. *)
Definition chr (c : codeunit) : regex := Chr (N.eqb c).

Fixpoint seq (rs : list regex) : regex :=
  match rs with
  | [] => Eps
  | [r] => r
  | r :: rest => Seq r (seq rest)
  end.

Definition lit (s : jsstring) : regex := seq (map chr s).
Definition star (r : regex) : regex := Star true r.
Definition lazyStar (r : regex) : regex := Star false r.
Definition plus (r : regex) : regex := Seq r (Star true r).
Definition opt (r : regex) : regex := Alt r Eps.

Definition inRange (lo hi : string) (c : codeunit) : bool :=
  match u lo, u hi with
  | [l], [h] => ((l <=? c) && (c <=? h))%N
  | _, _ => false
  end.

Arguments inRange (lo hi)%_string c.

(** [[a-zA-Z]] *)
Definition isLetter (c : codeunit) : bool := inRange "a" "z" c || inRange "A" "Z" c.
(** [[a-zA-Z0-9_-]] *)
Definition isTagChar (c : codeunit) : bool :=
  isLetter c || inRange "0" "9" c || (c =? 95)%N || (c =? 45)%N.
(** [[\s\S]] *)
Definition anyUnit (c : codeunit) : bool := isWhiteSpace c || negb (isWhiteSpace c).
(** A letter under the i flag: the code units that canonicalize to the same
    upper-case ASCII letter are the letter's two cases. *)
Definition letterI (lower upper : string) : regex :=
  Chr (fun c => inRange lower lower c || inRange upper upper c).

Arguments letterI (lower upper)%_string.

End RegExp.

(** ** JSON.parse *)

(** A recursive-descent reader of the JSON grammar of ECMA-404, which is what
    [JSON.parse] accepts. The recursion is on [fuel]: of two calls in a row
    that pass it on one has read a code unit, so [2 * length s + 2] of it
    is never used up ([JSONFacts.parse_fuel_enough] below). *)
Module JSON.

Definition isJSONWhiteSpace (c : codeunit) : bool :=
  ((c =? 9) || (c =? 10) || (c =? 13) || (c =? 32))%N.

Fixpoint skipWS (s : jsstring) : jsstring :=
  match s with
  | [] => []
  | c :: r => if isJSONWhiteSpace c then skipWS r else s
  end.

Definition isDigit (c : codeunit) : bool := ((48 <=? c) && (c <=? 57))%N.

Definition hexDigit (c : codeunit) : option N :=
  if ((48 <=? c) && (c <=? 57))%N then Some (c - 48)%N
  else if ((97 <=? c) && (c <=? 102))%N then Some (c - 87)%N
  else if ((65 <=? c) && (c <=? 70))%N then Some (c - 55)%N
  else None.

Definition hex4 (a b c d : codeunit) : option codeunit :=
  match hexDigit a, hexDigit b, hexDigit c, hexDigit d with
  | Some x, Some y, Some z, Some w => Some (((x * 16 + y) * 16 + z) * 16 + w)%N
  | _, _, _, _ => None
  end.

(** The single-character escapes: what stands after the backslash, what it
    denotes. *)
Definition escaped (e : codeunit) : option codeunit :=
  if (e =? 34)%N then Some 34%N            (* quote *)
  else if (e =? 92)%N then Some 92%N       (* backslash *)
  else if (e =? 47)%N then Some 47%N       (* slash *)
  else if (e =? 98)%N then Some 8%N        (* backspace *)
  else if (e =? 102)%N then Some 12%N      (* form feed *)
  else if (e =? 110)%N then Some 10%N      (* line feed *)
  else if (e =? 114)%N then Some 13%N      (* carriage return *)
  else if (e =? 116)%N then Some 9%N       (* tab *)
  else None.

(** The characters of a string after its opening quote: the string they
    denote and what follows the closing quote. *)
Fixpoint stringChars (s : jsstring) : option (jsstring * jsstring) :=
  match s with
  | [] => None
  | c :: r =>
      if (c =? 34)%N then Some ([], r)
      else if (c =? 92)%N then
        match r with
        | [] => None
        | e :: r1 =>
            if (e =? 117)%N then                     (* u and four hexadecimal digits *)
              match r1 with
              | a :: b :: c' :: d :: r2 =>
                  match hex4 a b c' d, stringChars r2 with
                  | Some x, Some (t, r3) => Some (x :: t, r3)
                  | _, _ => None
                  end
              | _ => None
              end
            else
              match escaped e, stringChars r1 with
              | Some x, Some (t, r3) => Some (x :: t, r3)
              | _, _ => None
              end
        end
      else if (c <? 32)%N then None
      else match stringChars r with
           | Some (t, r3) => Some (c :: t, r3)
           | None => None
           end
  end.

Fixpoint digits (s : jsstring) : jsstring * jsstring :=
  match s with
  | [] => ([], [])
  | c :: r => if isDigit c then let (ds, r') := digits r in (c :: ds, r') else ([], s)
  end.

(** At least one digit. *)
Definition digits1 (s : jsstring) : option (jsstring * jsstring) :=
  match digits s with
  | ([], _) => None
  | (ds, r) => Some (ds, r)
  end.

(** A number: an optional minus sign; then 0, or a digit from 1 to 9 and
    any digits; then optionally a point and at least one digit; then
    optionally e or E, an optional sign and at least one digit. The result
    is the literal and what follows it. *)
Definition number (s : jsstring) : option (jsstring * jsstring) :=
  let (sign, s1) := match s with
                    | c :: r => if (c =? 45)%N then ([c], r) else ([], s)
                    | [] => ([], s)
                    end in
  let int := match s1 with
             | c :: r => if (c =? 48)%N then Some ([c], r) else digits1 s1
             | [] => None
             end in
  match int with
  | None => None
  | Some (i, s2) =>
      let frac := match s2 with
                  | c :: r => if (c =? 46)%N
                              then match digits1 r with
                                   | Some (ds, r') => Some (c :: ds, r')
                                   | None => None
                                   end
                              else Some ([], s2)
                  | [] => Some ([], s2)
                  end in
      match frac with
      | None => None
      | Some (f, s3) =>
          let exp := match s3 with
                     | c :: r =>
                         if ((c =? 101) || (c =? 69))%N
                         then let (sg, r1) := match r with
                                              | x :: r' => if ((x =? 43) || (x =? 45))%N
                                                           then ([x], r') else ([], r)
                                              | [] => ([], r)
                                              end in
                              match digits1 r1 with
                              | Some (ds, r') => Some (c :: sg ++ ds, r')
                              | None => None
                              end
                         else Some ([], s3)
                     | [] => Some ([], s3)
                     end in
          match exp with
          | None => None
          | Some (e, s4) => Some (sign ++ i ++ f ++ e, s4)
          end
      end
  end.

(** [s] without the prefix [p], if it has it. *)
Fixpoint afterPrefix (p s : jsstring) : option jsstring :=
  match p, s with
  | [], _ => Some s
  | a :: p', b :: s' => if (a =? b)%N then afterPrefix p' s' else None
  | _ :: _, [] => None
  end.

(** A value at the head of [s] (no white space before it), the elements of
    an array after the first [[], the members of an object after the first
    [{]; each with what follows. *)
Fixpoint parseValue (fuel : nat) (s : jsstring) : option (value * jsstring) :=
  match fuel with
  | 0 => None
  | S fuel' =>
      match s with
      | [] => None
      | c :: r =>
          if (c =? 123)%N then                       (* { *)
            match skipWS r with
            | c1 :: r1 => if (c1 =? 125)%N then Some (VObject [], r1)
                          else parseMembers fuel' (c1 :: r1) []
            | [] => None
            end
          else if (c =? 91)%N then                   (* [ *)
            match skipWS r with
            | c1 :: r1 => if (c1 =? 93)%N then Some (VArray [], r1)
                          else parseElements fuel' (c1 :: r1) []
            | [] => None
            end
          else if (c =? 34)%N then
            match stringChars r with
            | Some (t, r1) => Some (VString t, r1)
            | None => None
            end
          else match afterPrefix (u "true") s, afterPrefix (u "false") s,
                     afterPrefix (u "null") s with
               | Some r1, _, _ => Some (VBool true, r1)
               | _, Some r1, _ => Some (VBool false, r1)
               | _, _, Some r1 => Some (VNull, r1)
               | None, None, None =>
                   match number s with
                   | Some (x, r1) => Some (VNumber x, r1)
                   | None => None
                   end
               end
      end
  end

with parseElements (fuel : nat) (s : jsstring) (acc : list value)
  : option (value * jsstring) :=
  match fuel with
  | 0 => None
  | S fuel' =>
      match parseValue fuel' s with
      | None => None
      | Some (v, r) =>
          match skipWS r with
          | c :: r1 =>
              if (c =? 44)%N then parseElements fuel' (skipWS r1) (v :: acc)
              else if (c =? 93)%N then Some (VArray (rev (v :: acc)), r1)
              else None
          | [] => None
          end
      end
  end

with parseMembers (fuel : nat) (s : jsstring) (acc : list (jsstring * value))
  : option (value * jsstring) :=
  match fuel with
  | 0 => None
  | S fuel' =>
      match s with
      | c :: r =>
          if (c =? 34)%N then
            match stringChars r with
            | None => None
            | Some (key, r1) =>
                match skipWS r1 with
                | c2 :: r2 =>
                    if (c2 =? 58)%N then
                      match parseValue fuel' (skipWS r2) with
                      | None => None
                      | Some (v, r3) =>
                          match skipWS r3 with
                          | c4 :: r4 =>
                              if (c4 =? 44)%N
                              then parseMembers fuel' (skipWS r4) ((key, v) :: acc)
                              else if (c4 =? 125)%N
                              then Some (VObject (rev ((key, v) :: acc)), r4)
                              else None
                          | [] => None
                          end
                      end
                    else None
                | [] => None
                end
            end
          else None
      | [] => None
      end
  end.

(** [JSON.parse(s)]: one value, white space around it, nothing else; a
    [SyntaxError] otherwise. *)
Definition parseWith (fuel : nat) (s : jsstring) : completion value :=
  match parseValue fuel (skipWS s) with
  | Some (v, r) =>
      match skipWS r with
      | [] => Normal v
      | _ :: _ => Throw SyntaxError
      end
  | None => Throw SyntaxError
  end.

Definition parse (s : jsstring) : completion value :=
  parseWith (2 * length s + 2) s.

End JSON.

(** Number literals as they print when they are integers written without
    fraction and exponent, of at most fifteen digits: the literal itself,
    [-0] printing as [0]. The closed examples below use this reading; the
    theorems hold for every [NumberSemantics]. *)
#[global] Instance IntegerLiterals : NumberSemantics := {
  NumberToString x := if jsstring_eqb x (u "-0") then u "0" else x;
  NumberIsZero x := jsstring_eqb x (u "0") || jsstring_eqb x (u "-0")
}.

(** ** [Set] *)

(** A [Set] of strings keeps its elements in insertion order, each once. *)
Definition Set_add (s : list jsstring) (x : jsstring) : list jsstring :=
  if existsb (jsstring_eqb x) s then s else s ++ [x].

(** [Array.from(new Set(l))] *)
Definition Set_of (l : list jsstring) : list jsstring :=
  fold_left Set_add l [].

(** ** The functions of [write.mjs] *)

Record DraftRecord := {
  title : jsstring;
  draftBody : jsstring;
  tags : list jsstring
}.

Import RegExp.

(** [/```[a-zA-Z]*\s*([\s\S]*?)\s*```/] *)
Definition fenceBlock : regex :=
  seq [lit (u "```"); star (Chr isLetter); star (Chr isWhiteSpace);
       Group (lazyStar (Chr anyUnit)); star (Chr isWhiteSpace); lit (u "```")].

(** [/^```[a-zA-Z0-9_-]*\s*$/] *)
Definition fenceLine : regex :=
  seq [Bol; lit (u "```"); star (Chr isTagChar); star (Chr isWhiteSpace); Eol].

(** [/^```$/] *)
Definition bareFence : regex := seq [Bol; lit (u "```"); Eol].

(** [/^#+\s*/] *)
Definition headingMarks : regex :=
  seq [Bol; plus (chr 35%N); star (Chr isWhiteSpace)].

(** [/^c+|c+$/g] for the quoting character [c]: the double quote, the
    apostrophe and the backtick in turn. *)
Definition wrapping (c : codeunit) : regex :=
  Alt (seq [Bol; plus (chr c)]) (seq [plus (chr c); Eol]).

(** [/^json$/i] *)
Definition jsonLabel : regex :=
  seq [Bol; letterI "j" "J"; letterI "s" "S"; letterI "o" "O"; letterI "n" "N"; Eol].

(** [/\r?\n/] *)
Definition lineBreak : regex := seq [opt (chr CR); chr LF].

(** [/^```/] *)
Definition fenceStart : regex := seq [Bol; lit (u "```")].

(** The title [sanitizeTitle] falls back on, U+30BF U+30A4 U+30C8 U+30EB
    U+FF08 U+81EA U+52D5 U+751F U+6210 U+FF09. *)
Definition placeholderTitle : jsstring :=
  [0x30BF; 0x30A4; 0x30C8; 0x30EB; 0xFF08; 0x81EA; 0x52D5; 0x751F; 0x6210; 0xFF09]%N.

(** The text [extractJsonFlexible] works on:
    [(raw || '').trim().replace(/\u200B/g, '')]. *)
Definition cleaned (raw : jsstring) : jsstring := removeAll ZWSP (trim raw).

(** What the second [JSON.parse] of [extractJsonFlexible] is given, when
    there is a fenced block with something in it: [fence[1].trim()]. *)
Definition fencedCandidate (text : jsstring) : option jsstring :=
  match match1 fenceBlock text with
  | Some (Some inner) => if isEmpty inner then None else Some (trim inner)
  | _ => None
  end.

(** What the third [JSON.parse] is given, when a [{] stands before the last
    [}]: [text.slice(firstBrace, lastBrace + 1)]. *)
Definition slicedCandidate (text : jsstring) : option jsstring :=
  match indexOf 123%N text, lastIndexOf 125%N text with
  | Some firstBrace, Some lastBrace =>
      if firstBrace <? lastBrace then Some (slice text firstBrace (lastBrace + 1)) else None
  | _, _ => None
  end.

(** [try { return JSON.parse(c) } catch (_) { }] on a candidate that may be
    absent: the value returned, if one is. *)
Definition tryParse (c : option jsstring) : option value :=
  match c with
  | Some t => match JSON.parse t with Normal v => Some v | Throw _ => None end
  | None => None
  end.

Definition extractJsonFlexible (raw : jsstring) : value :=
  let text := cleaned raw in
  match JSON.parse text with
  | Normal v => v
  | Throw _ =>
      match tryParse (fencedCandidate text) with
      | Some v => v
      | None =>
          match tryParse (slicedCandidate text) with
          | Some v => v
          | None => VNull
          end
      end
  end.

Section Extractor.
Context {NS : NumberSemantics}.

(** The repair request, as the text its answer carries. *)
Variable generateText : jsstring -> jsstring.

Definition repairJson (raw : jsstring) : value :=
  let result_text := generateText raw in
  match JSON.parse result_text with
  | Normal v => v
  | Throw _ => extractJsonFlexible result_text
  end.

(** The replacements of [sanitizeTitle], from its first [trim] to the one
    that drops a bare [json]. *)
Definition stripMarks (s : jsstring) : jsstring :=
  let title := trim s in
  let title := replaceFirst bareFence (replaceFirst fenceLine title) in
  let title := replaceFirst headingMarks title in
  let title := replaceAll (wrapping 39%N) (replaceAll (wrapping 34%N) title) in
  let title := replaceAll (wrapping 96%N) title in
  replaceFirst jsonLabel title.

(** The same with the [trim] that ends the chain. *)
Definition stripTitle (s : jsstring) : jsstring := trim (stripMarks s).

Definition sanitizeTitle (value : value) : completion jsstring :=
  s <- StringOrEmpty value ;;
  let title := stripTitle s in
  Normal (if isEmpty title then placeholderTitle else title).

(** [(text || '').split(/\r?\n/).map((line) => line.trim()).filter(Boolean)] *)
Definition nonblankLines (text : jsstring) : list jsstring :=
  filter (fun line => negb (isEmpty line)) (map trim (split lineBreak text)).

Definition deriveTitleFromText (text : jsstring) : completion jsstring :=
  let lines := nonblankLines text in
  let firstRealLine :=
    match find (fun line => negb (test fenceStart line)) lines with
    | Some line => line
    | None => match lines with line :: _ => line | [] => [] end
    end in
  sanitizeTitle (VString firstRealLine).

(** [extractJsonFlexible(text || '') || (await repairJson(text || ''))] *)
Definition parsedOf (text : jsstring) : value :=
  let v := extractJsonFlexible text in
  if ToBoolean v then v else repairJson text.

(** The three assignments under [if (parsed)]. *)
Definition fromParsed (parsed : value) : completion DraftRecord :=
  t <- (v <- Get parsed (u "title") ;; sanitizeTitle v) ;;
  b <- (v <- Get parsed (u "draftBody") ;; s <- StringOrEmpty v ;; Normal (trim s)) ;;
  g <- (v <- Get parsed (u "tags") ;;
        match v with
        | VArray elements => mapM ToString elements
        | _ => Normal []
        end) ;;
  Normal {| title := t; draftBody := b; tags := g |}.

(** [lines.slice(1).join('\n').trim() || (text || '')] for
    [lines = (text || '').split(/\r?\n/)]. *)
Definition restOfText (text : jsstring) : jsstring :=
  let lines := split lineBreak text in
  let body := trim (join [LF] (tl lines)) in
  if isEmpty body then text else body.

(** The three assignments under [if (!title || !draftBody)]. *)
Definition fromRawText (text : jsstring) : completion DraftRecord :=
  t <- deriveTitleFromText text ;;
  Normal {| title := t; draftBody := restOfText text; tags := [] |}.

(** [main] from the answer [text] of the first request to the record before
    the caller's tags are merged in. [title], [draftBody] and [tags] are
    [undefined] until [if (parsed)] assigns them. *)
Definition extract (text : jsstring) : completion DraftRecord :=
  let parsed := parsedOf text in
  assigned <- (if ToBoolean parsed
               then r <- fromParsed parsed ;; Normal (Some r)
               else Normal None) ;;
  match assigned with
  | Some r =>
      if isEmpty (title r) || isEmpty (draftBody r) then fromRawText text else Normal r
  | None => fromRawText text
  end.

(** [if (inputTags.length) { tags = Array.from(new Set([...tags, ...inputTags])) }] *)
Definition mergeTags (tags inputTags : list jsstring) : list jsstring :=
  match inputTags with
  | [] => tags
  | _ :: _ => Set_of (tags ++ inputTags)
  end.

(** The record [main] writes. *)
Definition main (text : jsstring) (inputTags : list jsstring) : completion DraftRecord :=
  r <- extract text ;;
  Normal {| title := title r; draftBody := draftBody r;
            tags := mergeTags (tags r) inputTags |}.

End Extractor.


(** ** The rest of [main]: the caller's tags and the file written *)

(** [s.split(c)] for a separator [c] of one code unit. *)
Fixpoint splitOn (c : codeunit) (s : jsstring) : list jsstring :=
  match s with
  | [] => [[]]
  | x :: r =>
      if (x =? c)%N then [] :: splitOn c r
      else match splitOn c r with
           | piece :: pieces => (x :: piece) :: pieces
           | [] => [[x]]
           end
  end.

(** [(process.env.INPUT_TAGS || '').split(',').map((value) => value.trim()).filter(Boolean)],
    the variable being [None] when it is not set. *)
Definition inputTagsOf (INPUT_TAGS : option jsstring) : list jsstring :=
  let text := match INPUT_TAGS with Some s => s | None => [] end in
  filter (fun value => negb (isEmpty value)) (map trim (splitOn 44%N text)).

(** [JSON.stringify({ title, draftBody, tags }, null, 2)] on the strings and
    the array of strings [main] passes: [QuoteJSONString] for the strings,
    members and elements on lines of their own, indented by two spaces a
    level. *)
Module Stringify.

Definition hexChar (d : N) : codeunit := (if d <? 10 then 48 + d else 87 + d)%N.

(** [UnicodeEscape]: backslash, u and four lower-case hexadecimal digits. *)
Definition unicodeEscape (c : codeunit) : jsstring :=
  [92; 117; hexChar (c / 4096 mod 16); hexChar (c / 256 mod 16);
   hexChar (c / 16 mod 16); hexChar (c mod 16)]%N.

Definition isLeadingSurrogate (c : codeunit) : bool := ((0xD800 <=? c) && (c <=? 0xDBFF))%N.
Definition isTrailingSurrogate (c : codeunit) : bool := ((0xDC00 <=? c) && (c <=? 0xDFFF))%N.

(** A code unit that is no surrogate: the two-character escapes, the
    escape of another control character, or the unit itself. *)
Definition quoteUnit (c : codeunit) : jsstring :=
  (if c =? 8 then [92; 98]
   else if c =? 9 then [92; 116]
   else if c =? 10 then [92; 110]
   else if c =? 12 then [92; 102]
   else if c =? 13 then [92; 114]
   else if c =? 34 then [92; 34]
   else if c =? 92 then [92; 92]
   else if c <? 32 then unicodeEscape c
   else [c])%N.

(** The code points of the string in turn: a leading surrogate with the
    trailing one after it stays as it is, a surrogate on its own is
    escaped. *)
Fixpoint quoteChars (s : jsstring) : jsstring :=
  match s with
  | [] => []
  | c :: r =>
      if isLeadingSurrogate c then
        match r with
        | d :: r' =>
            if isTrailingSurrogate d then c :: d :: quoteChars r'
            else unicodeEscape c ++ quoteChars r
        | [] => unicodeEscape c
        end
      else if isTrailingSurrogate c then unicodeEscape c ++ quoteChars r
      else quoteUnit c ++ quoteChars r
  end.

(** [QuoteJSONString] *)
Definition quote (s : jsstring) : jsstring := [34%N] ++ quoteChars s ++ [34%N].

(** An array of strings whose elements are indented by [indent] and whose
    closing bracket is indented by [stepback]. *)
Definition strings (indent stepback : jsstring) (items : list jsstring) : jsstring :=
  match items with
  | [] => u "[]"
  | _ :: _ =>
      u "[" ++ [LF] ++ indent ++ join (u "," ++ [LF] ++ indent) (map quote items)
      ++ [LF] ++ stepback ++ u "]"
  end.

Definition draft (r : DraftRecord) : jsstring :=
  let gap := u "  " in
  u "{" ++ [LF] ++ gap
  ++ join (u "," ++ [LF] ++ gap)
       [quote (u "title") ++ u ": " ++ quote (title r);
        quote (u "draftBody") ++ u ": " ++ quote (draftBody r);
        quote (u "tags") ++ u ": " ++ strings (gap ++ gap) gap (tags r)]
  ++ [LF] ++ u "}".

End Stringify.


(** ** The fallback chain as the specification words it *)

(** The first candidate, in the order given, that [JSON.parse] accepts; a
    candidate after it is not looked at. [null] when there is none. *)
Fixpoint firstParsed (candidates : list (option jsstring)) : value :=
  match candidates with
  | [] => VNull
  | c :: later =>
      match tryParse c with
      | Some v => v
      | None => firstParsed later
      end
  end.

(** ** Inputs of the examples *)

(** A repair request whose answer is no JSON. *)
Definition noRepair (raw : jsstring) : jsstring := u "I cannot help with that".

Definition helloJson : jsstring :=
  dq (u "{'title':'# Hello','draftBody':'body text','tags':['a','a','b']}").

Definition numberTagJson : jsstring :=
  dq (u "{'title':'# Hello','draftBody':' body text','tags':['a',7]}").

Definition plainJson : jsstring := dq (u "{'title':'T','draftBody':'B','tags':[]}").

Definition fencedJson : jsstring := u "```json" ++ [LF] ++ plainJson ++ [LF] ++ u "```".

Definition proseJson : jsstring := u "Here you go: " ++ plainJson ++ u " Hope it helps.".

Definition plainProse : jsstring := u "My Great Title" ++ [LF] ++ u "Some body content".

Definition emptyBodyJson : jsstring := dq (u "{'title':'T','draftBody':'','tags':['a']}").

Definition paddedBodyJson : jsstring := dq (u "{'title':'T','draftBody':' B ','tags':[]}").

Definition blankLineProse : jsstring := [LF] ++ u "Title" ++ [LF] ++ u "Body".

Definition toStringTitleJson : jsstring :=
  dq (u "{'title':{'toString':1},'draftBody':'b','tags':[]}").

(** The title is written with the escape sequence for U+200B: backslash,
    u, 2, 0, 0, B. *)
Definition escapedZwspJson : jsstring :=
  dq (u "{'title':'a\u200Bb','draftBody':'x','tags':[]}").

Definition shieldedJson : jsstring := [ZWSP; NBSP] ++ plainJson.

Definition stringTagsJson : jsstring := dq (u "{'title':'T','draftBody':'B','tags':'x, y'}").

(** ** Notions of the proofs *)

(** The code units a match state holds, what is left to read and what
    group 1 captured, are code units of the text [s]. *)
Definition unitsOf (s : jsstring) (st : RegExp.mstate) : Prop :=
  (forall x, In x (RegExp.rest st) -> In x s) /\
  (forall cap x, RegExp.capture st = Some cap -> In x cap -> In x s).

(** One more code unit in front of the string a scan returned. *)
Definition consTo (c : codeunit) (o : option (jsstring * jsstring)) :=
  match o with Some (t, r) => Some (c :: t, r) | None => None end.

(** What [JSON.stringify] writes between two elements of [tags]. *)
Definition sep4 : jsstring := u "," ++ [LF] ++ u "    ".

(** An array or an object: the values [String] converts by running their
    [toString], the only conversions that can fail. *)
Definition isStructured (v : value) : bool :=
  match v with
  | VArray _ | VObject _ => true
  | _ => false
  end.

(** The supplied tags that are not among [tags]. *)
Definition newTags (tags inputTags : list jsstring) : list jsstring :=
  filter (fun x => negb (existsb (jsstring_eqb x) tags)) inputTags.

(** ** Properties *)

(** *** The run time on small inputs *)

Example trim_strips_both_ends :
  trim ([0xFEFF%N; 32%N] ++ u "a b" ++ [NBSP; LF]) = u "a b".
Proof. vm_compute. reflexivity. Qed.

Example trim_stops_at_zero_width_space : trim [32%N; ZWSP; 32%N] = [ZWSP].
Proof. vm_compute. reflexivity. Qed.

Example split_on_line_breaks :
  RegExp.split lineBreak (u "a" ++ [CR; LF] ++ u "b" ++ [LF; LF] ++ u "c") =
  [u "a"; u "b"; []; u "c"].
Proof. vm_compute. reflexivity. Qed.

Example split_of_the_empty_string : RegExp.split lineBreak [] = [[]].
Proof. vm_compute. reflexivity. Qed.

Example parse_accepts :
  JSON.parse (u " [1, 2.5e-3, true, null] ") =
    Normal (VArray [VNumber (u "1"); VNumber (u "2.5e-3"); VBool true; VNull])
  /\ JSON.parse (dq (u "{'a':1,'a':'tab\tend'}")) =
       Normal (VObject [(u "a", VNumber (u "1")); (u "a", VString (u "tab" ++ [9%N] ++ u "end"))])
  /\ member (u "a") [(u "a", VNumber (u "1")); (u "a", VNull)] = VNull.
Proof. repeat split; vm_compute; reflexivity. Qed.

Example parse_rejects :
  map JSON.parse [u ""; u "[1,]"; u "01"; u "1."; u "{}x"; dq (u "{'a' 1}"); dq (u "'open")] =
  repeat (Throw SyntaxError) 7.
Proof. vm_compute. reflexivity. Qed.

Example fenced_block_is_the_first_one :
  fencedCandidate (u "```js" ++ [LF] ++ u "x" ++ [LF] ++ u "``` and ```y```") = Some (u "x")
  /\ fencedCandidate (u "```abc```") = None.
Proof. split; vm_compute; reflexivity. Qed.

Example slice_between_braces :
  slicedCandidate (u "a{b}c}d") = Some (u "{b}c}") /\ slicedCandidate (u "}{") = None.
Proof. split; vm_compute; reflexivity. Qed.

Example String_of_an_array :
  ToString (VArray [VNumber (u "1"); VNull; VArray [VString (u "a"); VBool true]; VObject []]) =
  Normal (u "1,,a,true,[object Object]").
Proof. vm_compute. reflexivity. Qed.

Example titles_sanitized :
  map (fun s => sanitizeTitle (VString s))
      [u "## Title "; dq (u "'Quoted'"); u "`code`"; u "'it's'"; u "a#b"] =
  map Normal [u "Title"; u "Quoted"; u "code"; u "it's"; u "a#b"]
  /\ map (fun s => sanitizeTitle (VString s)) [u "Json"; u "```md"; u "#"; u "  "] =
     repeat (Normal placeholderTitle) 4.
Proof. split; vm_compute; reflexivity. Qed.

Example Set_keeps_first_occurrences :
  Set_of [u "b"; u "a"; u "b"; u "c"; u "a"] = [u "b"; u "a"; u "c"].
Proof. vm_compute. reflexivity. Qed.

(** *** Strings *)

Lemma trimStart_blank (s : jsstring) :
  forallb isWhiteSpace s = true -> trimStart s = [].
Proof.
  induction s as [|c r IH]; simpl; [reflexivity|].
  intros H. apply andb_prop in H as [Hc Hr]. rewrite Hc. auto.
Qed.

Lemma trimStart_app_blank (ws s : jsstring) :
  forallb isWhiteSpace ws = true -> trimStart (ws ++ s) = trimStart s.
Proof.
  induction ws as [|c r IH]; simpl; [reflexivity|].
  intros H. apply andb_prop in H as [Hc Hr]. rewrite Hc. auto.
Qed.

Lemma trimStart_solid (c : codeunit) (s : jsstring) :
  isWhiteSpace c = false -> trimStart (c :: s) = c :: s.
Proof. intros H. simpl. rewrite H. reflexivity. Qed.

Lemma trim_blank (s : jsstring) : forallb isWhiteSpace s = true -> trim s = [].
Proof. intros H. unfold trim. rewrite trimStart_blank by assumption. reflexivity. Qed.

Lemma forallb_rev {A} (p : A -> bool) (l : list A) :
  forallb p (rev l) = forallb p l.
Proof.
  induction l as [|a l IH]; simpl; [reflexivity|].
  rewrite forallb_app, IH. simpl. rewrite andb_true_r. apply andb_comm.
Qed.

Lemma trim_enclosed (ws1 ws2 m r r' : jsstring) (a b : codeunit) :
  m = a :: r -> m = r' ++ [b] ->
  forallb isWhiteSpace ws1 = true -> forallb isWhiteSpace ws2 = true ->
  isWhiteSpace a = false -> isWhiteSpace b = false ->
  trim (ws1 ++ m ++ ws2) = m.
Proof.
  intros Hm Hm' H1 H2 Ha Hb. unfold trim, trimEnd.
  rewrite trimStart_app_blank by assumption.
  rewrite Hm at 1. replace ((a :: r) ++ ws2) with (a :: r ++ ws2) by reflexivity.
  rewrite trimStart_solid by assumption.
  replace (a :: r ++ ws2) with (m ++ ws2) by (rewrite Hm; reflexivity).
  rewrite rev_app_distr, trimStart_app_blank by (rewrite forallb_rev; assumption).
  rewrite Hm' at 1. rewrite rev_app_distr.
  replace (rev [b] ++ rev r') with (b :: rev r') by reflexivity.
  rewrite trimStart_solid by assumption.
  replace (b :: rev r') with (rev (r' ++ [b])) by (rewrite rev_app_distr; reflexivity).
  rewrite rev_involutive. symmetry. assumption.
Qed.

Lemma removeAll_rev (c : codeunit) (s : jsstring) :
  removeAll c (rev s) = rev (removeAll c s).
Proof.
  unfold removeAll. apply filter_rev.
Qed.

(** A text starts with a code unit that is no white space when it does so
    once its U+200B are deleted. *)
Lemma removeAll_ZWSP_head (s r : jsstring) (c : codeunit) :
  removeAll ZWSP s = c :: r -> isWhiteSpace c = false ->
  exists a s', s = a :: s' /\ isWhiteSpace a = false.
Proof.
  destruct s as [|x s]; [discriminate|].
  intros H Hc. exists x, s. split; [reflexivity|].
  unfold removeAll in H. simpl in H.
  destruct (x =? ZWSP)%N eqn:E.
  - apply N.eqb_eq in E. subst x. reflexivity.
  - simpl in H. injection H as -> _. assumption.
Qed.

Lemma removeAll_absent (c : codeunit) (s : jsstring) : ~ In c (removeAll c s).
Proof.
  unfold removeAll. intros H. apply filter_In in H as [_ H].
  rewrite N.eqb_refl in H. discriminate.
Qed.

(** *** Sets *)

Lemma jsstring_eqb_eq (a b : jsstring) : jsstring_eqb a b = true <-> a = b.
Proof.
  unfold jsstring_eqb. destruct (list_eq_dec N.eq_dec a b); split; congruence.
Qed.

Lemma existsb_eqb_In (x : jsstring) (s : list jsstring) :
  existsb (jsstring_eqb x) s = true <-> In x s.
Proof.
  rewrite existsb_exists. split.
  - intros [y [Hy E]]. apply jsstring_eqb_eq in E. subst. assumption.
  - intros H. exists x. split; [assumption | apply jsstring_eqb_eq; reflexivity].
Qed.

Lemma Set_add_In (s : list jsstring) (x y : jsstring) :
  In y (Set_add s x) <-> In y s \/ y = x.
Proof.
  unfold Set_add. destruct (existsb (jsstring_eqb x) s) eqn:E.
  - apply existsb_eqb_In in E. split; [auto | intros [H | ->]; assumption].
  - rewrite in_app_iff. simpl. intuition.
Qed.

Lemma Set_add_NoDup (s : list jsstring) (x : jsstring) :
  NoDup s -> NoDup (Set_add s x).
Proof.
  intros H. unfold Set_add. destruct (existsb (jsstring_eqb x) s) eqn:E; [assumption|].
  assert (Hx : ~ In x s).
  { intros Hin. apply existsb_eqb_In in Hin. congruence. }
  clear E. induction H as [|a l Ha Hl IH]; simpl.
  - constructor; [intros [] | constructor].
  - constructor.
    + rewrite in_app_iff. simpl. intros [Hin | [-> | []]]; [auto | apply Hx; left; reflexivity].
    + apply IH. intros Hin. apply Hx. right. assumption.
Qed.

Lemma fold_Set_add (l acc : list jsstring) :
  NoDup acc ->
  NoDup (fold_left Set_add l acc) /\
  forall y, In y (fold_left Set_add l acc) <-> In y acc \/ In y l.
Proof.
  revert acc. induction l as [|x l IH]; intros acc H; simpl.
  - split; [assumption | intuition].
  - destruct (IH (Set_add acc x) (Set_add_NoDup x H)) as [N I]. split; [assumption|].
    intros y. rewrite I, Set_add_In. intuition.
Qed.

Lemma Set_of_NoDup (l : list jsstring) : NoDup (Set_of l).
Proof. apply fold_Set_add. constructor. Qed.

Lemma Set_of_In (l : list jsstring) (y : jsstring) : In y (Set_of l) <-> In y l.
Proof.
  unfold Set_of. destruct (fold_Set_add l (acc := [])) as [_ I]; [constructor|].
  rewrite I. simpl. intuition.
Qed.

Lemma cleaned_enclosed (ws1 ws2 body body' : jsstring) :
  forallb isWhiteSpace ws1 = true -> forallb isWhiteSpace ws2 = true ->
  removeAll ZWSP body' = 123%N :: body ++ [125%N] ->
  cleaned (ws1 ++ body' ++ ws2) = 123%N :: body ++ [125%N].
Proof.
  intros H1 H2 Hb. unfold cleaned.
  destruct (removeAll_ZWSP_head body' Hb) as (a & r & Ha & Hwa); [reflexivity|].
  assert (Hrev : removeAll ZWSP (rev body') = 125%N :: rev (123%N :: body)).
  { rewrite removeAll_rev, Hb.
    replace (123%N :: body ++ [125%N]) with ((123%N :: body) ++ [125%N]) by reflexivity.
    rewrite rev_app_distr. reflexivity. }
  destruct (removeAll_ZWSP_head (rev body') Hrev) as (b & r' & Hb' & Hwb); [reflexivity|].
  assert (Hlast : body' = rev r' ++ [b]).
  { rewrite <- (rev_involutive body'), Hb'. reflexivity. }
  rewrite (@trim_enclosed ws1 ws2 body' r (rev r') a b Ha Hlast H1 H2 Hwa Hwb). exact Hb.
Qed.

(** *** JSON.parse *)

Module JSONFacts.
Import JSON.
#[local] Unset Implicit Arguments.

Lemma skipWS_length (s : jsstring) : length (skipWS s) <= length s.
Proof.
  induction s as [|c r IH]; simpl; [lia|].
  destruct (isJSONWhiteSpace c); simpl; lia.
Qed.

Lemma stringChars_length (n : nat) :
  forall s t r, length s <= n -> stringChars s = Some (t, r) -> length r < length s.
Proof.
  induction n as [|n IH]; intros s t r Hn H.
  - destruct s; [discriminate | simpl in Hn; lia].
  - destruct s as [|c s]; [discriminate|]. simpl in Hn. cbn [stringChars] in H.
    destruct (c =? 34)%N.
    { injection H as _ <-. simpl. lia. }
    destruct (c =? 92)%N.
    + destruct s as [|e s1]; [discriminate|].
      destruct (e =? 117)%N.
      * destruct s1 as [|a [|b [|c' [|d s2]]]]; try discriminate.
        destruct (hex4 a b c' d); [|discriminate].
        destruct (stringChars s2) as [[t' r']|] eqn:E; [|discriminate].
        injection H as _ <-. apply IH in E; simpl in *; lia.
      * destruct (escaped e); [|discriminate].
        destruct (stringChars s1) as [[t' r']|] eqn:E; [|discriminate].
        injection H as _ <-. apply IH in E; simpl in *; lia.
    + destruct (c <? 32)%N; [discriminate|].
      destruct (stringChars s) as [[t' r']|] eqn:E; [|discriminate].
      injection H as _ <-. apply IH in E; simpl in *; lia.
Qed.

Lemma digits_length (s : jsstring) :
  length (snd (digits s)) <= length s.
Proof.
  induction s as [|c r IH]; simpl; [lia|].
  destruct (isDigit c); [|simpl; lia].
  destruct (digits r) as [ds r']. simpl in *. lia.
Qed.

Lemma digits1_length (s ds r : jsstring) :
  digits1 s = Some (ds, r) -> length r < length s.
Proof.
  unfold digits1. destruct s as [|c s']; [discriminate|].
  cbn [digits]. destruct (isDigit c); [|discriminate].
  pose proof (digits_length s') as L.
  destruct (digits s') as [ds' r']. intros H. injection H as _ <-. simpl in *. lia.
Qed.

Lemma number_length (s x r : jsstring) :
  number s = Some (x, r) -> length r < length s.
Proof.
  unfold number.
  set (signed := match s with
                 | c :: r0 => if (c =? 45)%N then ([c], r0) else ([], s)
                 | [] => ([], s)
                 end).
  assert (Hs : length (snd signed) <= length s).
  { subst signed. destruct s as [|c r0]; [simpl; lia|].
    destruct (c =? 45)%N; simpl; lia. }
  destruct signed as [sign s1]. simpl in Hs.
  match goal with |- context [match ?i with Some _ => _ | None => None end] =>
    assert (Hi : forall i0 s2, i = Some (i0, s2) -> length s2 < length s1) end.
  { intros i0 s2. destruct s1 as [|c r0]; [discriminate|].
    destruct (c =? 48)%N.
    - intros H. injection H as _ <-. simpl. lia.
    - apply digits1_length. }
  match goal with |- context [match ?i with Some _ => _ | None => None end] =>
    destruct i as [[i0 s2]|]; [|discriminate] end.
  specialize (Hi _ _ eq_refl).
  match goal with |- context [match ?f with Some _ => _ | None => None end] =>
    assert (Hf : forall f0 s3, f = Some (f0, s3) -> length s3 <= length s2) end.
  { intros f0 s3. destruct s2 as [|c r0].
    - intros H. injection H as _ <-. simpl. lia.
    - destruct (c =? 46)%N.
      + destruct (digits1 r0) as [[ds r']|] eqn:E; [|discriminate].
        intros H. injection H as _ <-. apply digits1_length in E. simpl. lia.
      + intros H. injection H as _ <-. lia. }
  match goal with |- context [match ?f with Some _ => _ | None => None end] =>
    destruct f as [[f0 s3]|]; [|discriminate] end.
  specialize (Hf _ _ eq_refl).
  match goal with |- context [match ?e with Some _ => _ | None => None end] =>
    assert (He : forall e0 s4, e = Some (e0, s4) -> length s4 <= length s3) end.
  { intros e0 s4. destruct s3 as [|c r0].
    - intros H. injection H as _ <-. simpl. lia.
    - destruct ((c =? 101) || (c =? 69))%N.
      + set (sg := match r0 with
                   | x0 :: r' => if ((x0 =? 43) || (x0 =? 45))%N then ([x0], r') else ([], r0)
                   | [] => ([], r0)
                   end).
        assert (Hsg : length (snd sg) <= length r0).
        { subst sg. destruct r0 as [|x0 r']; [simpl; lia|].
          destruct ((x0 =? 43) || (x0 =? 45))%N; simpl; lia. }
        destruct sg as [sg0 r1]. simpl in Hsg.
        destruct (digits1 r1) as [[ds r']|] eqn:E; [|discriminate].
        intros H. injection H as _ <-. apply digits1_length in E. simpl. lia.
      + intros H. injection H as _ <-. lia. }
  match goal with |- context [match ?e with Some _ => _ | None => None end] =>
    destruct e as [[e0 s4]|]; [|discriminate] end.
  specialize (He _ _ eq_refl).
  intros H. injection H as _ <-. lia.
Qed.

Lemma afterPrefix_length (p s r : jsstring) :
  afterPrefix p s = Some r -> length s = length p + length r.
Proof.
  revert s. induction p as [|a p IH]; intros s H; simpl in H.
  - injection H as <-. reflexivity.
  - destruct s as [|b s]; [discriminate|].
    destruct (a =? b)%N; [|discriminate]. apply IH in H. simpl. lia.
Qed.

Lemma skipWS_cons_length (s r : jsstring) (c : codeunit) :
  skipWS s = c :: r -> length r < length s.
Proof. intros H. pose proof (skipWS_length s) as L. rewrite H in L. simpl in L. lia. Qed.

Lemma parse_length (f : nat) :
  (forall s v r, parseValue f s = Some (v, r) -> length r < length s) /\
  (forall s acc v r, parseElements f s acc = Some (v, r) -> length r < length s) /\
  (forall s acc v r, parseMembers f s acc = Some (v, r) -> length r < length s).
Proof.
  induction f as [|f [IHv [IHe IHm]]]; [repeat split; intros; discriminate|].
  split; [|split].
  - intros s v r H. cbn [parseValue] in H.
    destruct s as [|c r0]; [discriminate|]. cbn [length].
    destruct (c =? 123)%N.
    { destruct (skipWS r0) as [|c1 r1] eqn:E; [discriminate|].
      apply skipWS_cons_length in E.
      destruct (c1 =? 125)%N.
      - injection H as _ <-. lia.
      - apply IHm in H. simpl in H. lia. }
    destruct (c =? 91)%N.
    { destruct (skipWS r0) as [|c1 r1] eqn:E; [discriminate|].
      apply skipWS_cons_length in E.
      destruct (c1 =? 93)%N.
      - injection H as _ <-. lia.
      - apply IHe in H. simpl in H. lia. }
    destruct (c =? 34)%N.
    { destruct (stringChars r0) as [[t r1]|] eqn:E; [|discriminate].
      injection H as _ <-. apply (stringChars_length (length r0)) in E; lia. }
    destruct (afterPrefix (u "true") (c :: r0)) as [r1|] eqn:Et.
    { injection H as _ <-. apply afterPrefix_length in Et. simpl in Et. lia. }
    destruct (afterPrefix (u "false") (c :: r0)) as [r1|] eqn:Ef.
    { injection H as _ <-. apply afterPrefix_length in Ef. simpl in Ef. lia. }
    destruct (afterPrefix (u "null") (c :: r0)) as [r1|] eqn:En.
    { injection H as _ <-. apply afterPrefix_length in En. simpl in En. lia. }
    destruct (number (c :: r0)) as [[x r1]|] eqn:E; [|discriminate].
    injection H as _ <-. apply number_length in E. simpl in E. lia.
  - intros s acc v r H. cbn [parseElements] in H.
    destruct (parseValue f s) as [[v1 r1]|] eqn:E; [|discriminate].
    apply IHv in E.
    destruct (skipWS r1) as [|c r2] eqn:E2; [discriminate|].
    apply skipWS_cons_length in E2.
    destruct (c =? 44)%N.
    + apply IHe in H. pose proof (skipWS_length r2). lia.
    + destruct (c =? 93)%N; [|discriminate]. injection H as _ <-. lia.
  - intros s acc v r H. cbn [parseMembers] in H.
    destruct s as [|c r0]; [discriminate|]. cbn [length].
    destruct (c =? 34)%N; [|discriminate].
    destruct (stringChars r0) as [[key r1]|] eqn:E; [|discriminate].
    apply (stringChars_length (length r0)) in E; [|lia].
    destruct (skipWS r1) as [|c2 r2] eqn:E2; [discriminate|].
    apply skipWS_cons_length in E2.
    destruct (c2 =? 58)%N; [|discriminate].
    destruct (parseValue f (skipWS r2)) as [[v1 r3]|] eqn:E3; [|discriminate].
    apply IHv in E3. pose proof (skipWS_length r2).
    destruct (skipWS r3) as [|c4 r4] eqn:E4; [discriminate|].
    apply skipWS_cons_length in E4.
    destruct (c4 =? 44)%N.
    + apply IHm in H. pose proof (skipWS_length r4). lia.
    + destruct (c4 =? 125)%N; [|discriminate]. injection H as _ <-. lia.
Qed.

(** Fuel beyond twice the length of the text changes nothing. *)
Lemma parse_fuel (n : nat) :
  forall s, length s <= n ->
    (forall f1 f2, 2 * length s + 2 <= f1 -> 2 * length s + 2 <= f2 ->
       parseValue f1 s = parseValue f2 s) /\
    (forall f1 f2 acc, 2 * length s + 3 <= f1 -> 2 * length s + 3 <= f2 ->
       parseElements f1 s acc = parseElements f2 s acc) /\
    (forall f1 f2 acc, 2 * length s + 3 <= f1 -> 2 * length s + 3 <= f2 ->
       parseMembers f1 s acc = parseMembers f2 s acc).
Proof.
  induction n as [n IH] using lt_wf_ind. intros s Hn.
  assert (V : forall f1 f2, 2 * length s + 2 <= f1 -> 2 * length s + 2 <= f2 ->
                parseValue f1 s = parseValue f2 s).
  { intros [|f1] [|f2] H1 H2; try lia. cbn [parseValue].
    destruct s as [|c r0]; [reflexivity|]. cbn [length] in *.
    destruct (c =? 123)%N.
    { destruct (skipWS r0) as [|c1 r1] eqn:E; [reflexivity|].
      apply skipWS_cons_length in E.
      destruct (c1 =? 125)%N; [reflexivity|].
      apply (IH (length (c1 :: r1))); simpl; lia. }
    destruct (c =? 91)%N; [|reflexivity].
    destruct (skipWS r0) as [|c1 r1] eqn:E; [reflexivity|].
    apply skipWS_cons_length in E.
    destruct (c1 =? 93)%N; [reflexivity|].
    apply (IH (length (c1 :: r1))); simpl; lia. }
  split; [exact V|]. split.
  - intros [|f1] [|f2] acc H1 H2; try lia. cbn [parseElements].
    rewrite (V f1 f2) by lia.
    destruct (parseValue f2 s) as [[v1 r1]|] eqn:E; [|reflexivity].
    apply parse_length in E.
    destruct (skipWS r1) as [|c r2] eqn:E2; [reflexivity|].
    apply skipWS_cons_length in E2.
    destruct (c =? 44)%N; [|reflexivity].
    pose proof (skipWS_length r2).
    apply (IH (length (skipWS r2))); lia.
  - intros [|f1] [|f2] acc H1 H2; try lia. cbn [parseMembers].
    destruct s as [|c r0]; [reflexivity|]. cbn [length] in *.
    destruct (c =? 34)%N; [|reflexivity].
    destruct (stringChars r0) as [[key r1]|] eqn:E; [|reflexivity].
    apply (stringChars_length (length r0)) in E; [|lia].
    destruct (skipWS r1) as [|c2 r2] eqn:E2; [reflexivity|].
    apply skipWS_cons_length in E2.
    destruct (c2 =? 58)%N; [|reflexivity].
    pose proof (skipWS_length r2).
    assert (Ev : parseValue f1 (skipWS r2) = parseValue f2 (skipWS r2)).
    { apply (IH (length (skipWS r2))); lia. }
    rewrite Ev.
    destruct (parseValue f2 (skipWS r2)) as [[v1 r3]|] eqn:E3; [|reflexivity].
    apply parse_length in E3.
    destruct (skipWS r3) as [|c4 r4] eqn:E4; [reflexivity|].
    apply skipWS_cons_length in E4.
    destruct (c4 =? 44)%N; [|reflexivity].
    pose proof (skipWS_length r4).
    apply (IH (length (skipWS r4))); lia.
Qed.

(** [JSON.parse] never runs out of fuel: more of it gives the same
    completion. *)
Theorem parse_fuel_enough (s : jsstring) (f : nat) :
  2 * length s + 2 <= f -> parseWith f s = parse s.
Proof.
  intros H. pose proof (skipWS_length s) as L. unfold parse, parseWith.
  destruct (@parse_fuel (length (skipWS s)) (skipWS s) (le_n _)) as [V _].
  rewrite (V f (2 * length s + 2)) by lia. reflexivity.
Qed.

End JSONFacts.

(** *** Regular expressions *)

Module RegExpFacts.
Import RegExp.
#[local] Unset Implicit Arguments.

Lemma iterate_ext {A} (N : nat) (greedy : bool)
  (body : mstate -> (mstate -> option A) -> option A)
  (Hbody : forall st k k', within N st ->
     (forall st', within N st' -> pos st <= pos st' -> k st' = k' st') ->
     body st k = body st k')
  (n : nat) :
  forall st k k', within N st ->
    (forall st', within N st' -> pos st <= pos st' -> k st' = k' st') ->
    iterate greedy body k n st = iterate greedy body k' n st.
Proof.
  induction n as [|n IH]; intros st k k' Hst Hk; cbn [iterate].
  - rewrite (Hk st Hst (le_n _)). reflexivity.
  - rewrite (Hk st Hst (le_n _)).
    rewrite (Hbody st _ (fun st1 => if pos st <? pos st1
                                    then iterate greedy body k' n st1 else None) Hst);
      [reflexivity|].
    intros st1 H1 L1. destruct (pos st <? pos st1); [|reflexivity].
    apply IH; [assumption|]. intros st' H' L'. apply Hk; [assumption | lia].
Qed.

(** What a continuation does to the states the match can reach is all that
    counts. *)
Lemma run_ext {A} (N : nat) (r : regex) :
  forall st (k k' : mstate -> option A), within N st ->
    (forall st', within N st' -> pos st <= pos st' -> k st' = k' st') ->
    run r st k = run r st k'.
Proof.
  induction r as [p| | | |r1 IH1 r2 IH2|r1 IH1 r2 IH2|g r1 IH1|r1 IH1];
    intros st k k' Hst Hk; cbn [run].
  - destruct (rest st) as [|c s'] eqn:E; [reflexivity|].
    destruct (p c); [|reflexivity]. apply Hk; [|simpl; lia].
    unfold within in *. rewrite E in Hst. simpl in *. lia.
  - rewrite (Hk st Hst (le_n _)). reflexivity.
  - rewrite (Hk st Hst (le_n _)). reflexivity.
  - apply Hk; [assumption | lia].
  - apply IH1; [assumption|]. intros st1 H1 L1. apply IH2; [assumption|].
    intros st' H' L'. apply Hk; [assumption | lia].
  - rewrite (IH1 st k k' Hst Hk), (IH2 st k k' Hst Hk). reflexivity.
  - apply iterate_ext with (N := N); assumption.
  - apply IH1; [assumption|]. intros st1 H1 L1. apply Hk; [exact H1 | exact L1].
Qed.

Lemma iterate_fails {A} (N : nat) (greedy : bool)
  (body : mstate -> (mstate -> option A) -> option A)
  (Hbody : forall st k, within N st ->
     (forall st', within N st' -> pos st <= pos st' -> k st' = None) ->
     body st k = None)
  (n : nat) :
  forall st k, within N st ->
    (forall st', within N st' -> pos st <= pos st' -> k st' = None) ->
    iterate greedy body k n st = None.
Proof.
  induction n as [|n IH]; intros st k Hst Hk; cbn [iterate].
  - rewrite (Hk st Hst (le_n _)). destruct greedy; reflexivity.
  - rewrite (Hk st Hst (le_n _)). rewrite Hbody; [destruct greedy; reflexivity | assumption |].
    intros st1 H1 L1. destruct (pos st <? pos st1); [|reflexivity].
    apply IH; [assumption|]. intros st' H' L'. apply Hk; [assumption | lia].
Qed.

(** A match whose continuation fails on every state it can reach fails. *)
Lemma run_fails {A} (N : nat) (r : regex) :
  forall st (k : mstate -> option A), within N st ->
    (forall st', within N st' -> pos st <= pos st' -> k st' = None) ->
    run r st k = None.
Proof.
  induction r as [p| | | |r1 IH1 r2 IH2|r1 IH1 r2 IH2|g r1 IH1|r1 IH1];
    intros st k Hst Hk; cbn [run].
  - destruct (rest st) as [|c s'] eqn:E; [reflexivity|].
    destruct (p c); [|reflexivity]. apply Hk; [|simpl; lia].
    unfold within in *. rewrite E in Hst. simpl in *. lia.
  - rewrite (Hk st Hst (le_n _)). destruct (pos st =? 0); reflexivity.
  - rewrite (Hk st Hst (le_n _)). destruct (rest st); reflexivity.
  - apply Hk; [assumption | lia].
  - apply IH1; [assumption|]. intros st1 H1 L1. apply IH2; [assumption|].
    intros st' H' L'. apply Hk; [assumption | lia].
  - rewrite (IH1 st k Hst Hk), (IH2 st k Hst Hk). reflexivity.
  - apply iterate_fails with (N := N); assumption.
  - apply IH1; [assumption|]. intros st1 H1 L1. apply Hk; [exact H1 | exact L1].
Qed.

(** The bound on the iterations of a star is never reached: a larger one
    gives the same match. *)
Theorem star_bound_enough {A} (N : nat) (greedy : bool) (r : regex)
  (k : mstate -> option A) (n : nat) :
  forall st m, within N st -> length (rest st) <= n -> length (rest st) <= m ->
    iterate greedy (run r) k n st = iterate greedy (run r) k m st.
Proof.
  induction n as [|n IH]; intros st m Hst Hn Hm.
  - destruct m as [|m]; [reflexivity|]. cbn [iterate].
    rewrite (@run_fails A N r st); [reflexivity | assumption |].
    intros st1 H1 L1. unfold within in *.
    destruct (pos st <? pos st1) eqn:E; [|reflexivity].
    apply Nat.ltb_lt in E. lia.
  - destruct m as [|m].
    + cbn [iterate]. rewrite (@run_fails A N r st); [reflexivity | assumption |].
      intros st1 H1 L1. unfold within in *.
      destruct (pos st <? pos st1) eqn:E; [|reflexivity].
      apply Nat.ltb_lt in E. lia.
    + cbn [iterate].
      rewrite (@run_ext A N r st _
                 (fun st1 => if pos st <? pos st1
                             then iterate greedy (run r) k m st1 else None) Hst);
        [reflexivity|].
      intros st1 H1 L1. destruct (pos st <? pos st1) eqn:E; [|reflexivity].
      apply Nat.ltb_lt in E. unfold within in *. apply IH; [assumption | lia | lia].
Qed.

Lemma iterate_reach {A} (N : nat) (greedy : bool)
  (body : mstate -> (mstate -> option A) -> option A)
  (Hbody : forall st k a, within N st -> body st k = Some a ->
     exists st', within N st' /\ pos st <= pos st' /\ k st' = Some a)
  (n : nat) :
  forall st k a, within N st -> iterate greedy body k n st = Some a ->
    exists st', within N st' /\ pos st <= pos st' /\ k st' = Some a.
Proof.
  induction n as [|n IH]; intros st k a Hst H; cbn [iterate] in H.
  - exists st. split; [assumption|]. split; [lia|].
    destruct greedy; [exact H | destruct (k st); [exact H | discriminate]].
  - assert (Hagain : body st (fun st1 => if pos st <? pos st1
                                         then iterate greedy body k n st1 else None) = Some a ->
                     exists st', within N st' /\ pos st <= pos st' /\ k st' = Some a).
    { intros E. apply Hbody in E as (st1 & H1 & L1 & E); [|assumption].
      destruct (pos st <? pos st1); [|discriminate].
      apply IH in E as (st' & H' & L' & E); [|assumption].
      exists st'. split; [assumption|]. split; [lia | assumption]. }
    destruct greedy.
    + destruct (body st _) as [b|] eqn:E.
      * apply Hagain. rewrite <- H. reflexivity.
      * exists st. split; [assumption|]. split; [lia | exact H].
    + destruct (k st) as [b|] eqn:E.
      * exists st. split; [assumption|]. split; [lia|]. rewrite E. exact H.
      * apply Hagain. exact H.
Qed.

(** A match succeeds through a state it has reached. *)
Lemma run_reach {A} (N : nat) (r : regex) :
  forall st (k : mstate -> option A) a, within N st -> run r st k = Some a ->
    exists st', within N st' /\ pos st <= pos st' /\ k st' = Some a.
Proof.
  induction r as [p| | | |r1 IH1 r2 IH2|r1 IH1 r2 IH2|g r1 IH1|r1 IH1];
    intros st k a Hst H; cbn [run] in H.
  - destruct (rest st) as [|c s'] eqn:E; [discriminate|].
    destruct (p c); [|discriminate].
    eexists. split; [|split; [|exact H]]; [|simpl; lia].
    unfold within in *. rewrite E in Hst. simpl in *. lia.
  - destruct (pos st =? 0); [|discriminate]. exists st. auto.
  - destruct (rest st); [|discriminate]. exists st. auto.
  - exists st. auto.
  - apply IH1 in H as (st1 & H1 & L1 & H); [|assumption].
    apply IH2 in H as (st' & H' & L' & H); [|assumption].
    exists st'. split; [assumption|]. split; [lia | assumption].
  - destruct (run r1 st k) as [b|] eqn:E.
    + apply IH1 in E as (st' & H' & L' & E); [|assumption].
      exists st'. split; [assumption|]. split; [assumption|]. rewrite E. exact H.
    + apply IH2; assumption.
  - apply (iterate_reach N g (run r1) IH1) in H; assumption.
  - apply IH1 in H as (st1 & H1 & L1 & H); [|assumption].
    eexists. split; [|split; [|exact H]]; [exact H1 | exact L1].
Qed.

Lemma matchAt_bounds (r : regex) (s : jsstring) (i : nat) (st : mstate) :
  i <= length s -> matchAt r s i = Some st -> within (length s) st /\ i <= pos st.
Proof.
  intros Hi H. unfold matchAt in H.
  apply (run_reach (length s)) in H as (st' & H' & L' & E).
  - injection E as <-. auto.
  - unfold within. cbn [pos rest]. rewrite length_skipn. lia.
Qed.

Lemma searchFrom_bounds (r : regex) (s : jsstring) (more i j : nat) (st : mstate) :
  searchFrom r s i more = Some (j, st) ->
  i <= j <= i + more /\ matchAt r s j = Some st.
Proof.
  revert i. induction more as [|more IH]; intros i H; cbn [searchFrom] in H.
  - destruct (matchAt r s i) eqn:E; [|discriminate]. injection H as <- <-.
    split; [lia | assumption].
  - destruct (matchAt r s i) eqn:E.
    + injection H as <- <-. split; [lia | assumption].
    + apply IH in H as [L H]. split; [lia | assumption].
Qed.

Lemma exec_bounds (r : regex) (s : jsstring) (from i : nat) (st : mstate) :
  exec r s from = Some (i, st) ->
  from <= i <= length s /\ within (length s) st /\ i <= pos st.
Proof.
  unfold exec. destruct (from <=? length s) eqn:E; [|discriminate].
  apply Nat.leb_le in E. intros H. apply searchFrom_bounds in H as [L H].
  assert (Hi : i <= length s) by lia.
  destruct (matchAt_bounds _ _ _ _ Hi H). split; [lia | auto].
Qed.

Lemma replaceFrom_bound (r : regex) (s : jsstring) (f1 : nat) :
  forall from f2,
    length s + 2 - from <= f1 -> length s + 2 - from <= f2 ->
    replaceFrom r s from f1 = replaceFrom r s from f2.
Proof.
  assert (late : forall from, length s + 2 - from <= 0 -> exec r s from = None).
  { intros from H. unfold exec. destruct (from <=? length s) eqn:E; [|reflexivity].
    apply Nat.leb_le in E. lia. }
  induction f1 as [|f1 IH]; intros from f2 H1 H2.
  - destruct f2 as [|f2]; [reflexivity|]. cbn [replaceFrom]. rewrite late; [reflexivity | lia].
  - destruct f2 as [|f2].
    + cbn [replaceFrom]. rewrite late; [reflexivity | lia].
    + cbn [replaceFrom]. destruct (exec r s from) as [[i st]|] eqn:E; [|reflexivity].
      apply exec_bounds in E as (L & _ & P). f_equal.
      destruct (pos st =? i) eqn:Q.
      * f_equal. apply IH; lia.
      * apply Nat.eqb_neq in Q. apply IH; lia.
Qed.

(** [replaceAll] never uses up its rounds: more of them give the same text. *)
Theorem replaceAll_bound_enough (r : regex) (s : jsstring) (f : nat) :
  length s + 2 <= f -> replaceFrom r s 0 f = replaceAll r s.
Proof. intros H. unfold replaceAll. apply replaceFrom_bound; lia. Qed.

Lemma splitFrom_bound (r : regex) (s : jsstring) (f1 : nat) :
  forall p q f2, p <= q ->
    2 * (length s - q) + (if p <? q then 1 else 0) <= f1 ->
    2 * (length s - q) + (if p <? q then 1 else 0) <= f2 ->
    splitFrom r s p q f1 = splitFrom r s p q f2.
Proof.
  assert (done : forall p q f, 2 * (length s - q) + (if p <? q then 1 else 0) <= 0 ->
                   splitFrom r s p q f = [skipn p s]).
  { intros p q [|f] H; [reflexivity|]. cbn [splitFrom].
    destruct (length s <=? q) eqn:E; [reflexivity|]. apply Nat.leb_gt in E. lia. }
  induction f1 as [|f1 IH]; intros p q f2 Hpq H1 H2.
  - rewrite (done p q f2) by lia. reflexivity.
  - destruct f2 as [|f2]; [rewrite (done p q (S f1)) by lia; reflexivity|].
    cbn [splitFrom]. destruct (length s <=? q) eqn:E; [reflexivity|].
    apply Nat.leb_gt in E.
    assert (step : splitFrom r s p (S q) f1 = splitFrom r s p (S q) f2).
    { apply IH; [lia | |];
        destruct (p <? S q) eqn:T; destruct (p <? q); try lia;
        apply Nat.ltb_ge in T; lia. }
    destruct (matchAt r s q) as [st|] eqn:M; [|exact step].
    apply matchAt_bounds in M as [_ P]; [|lia].
    destruct (Nat.min (pos st) (length s) =? p) eqn:Q; [exact step|].
    apply Nat.eqb_neq in Q. f_equal.
    apply IH; [lia | |]; rewrite Nat.ltb_irrefl;
      destruct (p <? q) eqn:T; try lia; apply Nat.ltb_ge in T; lia.
Qed.

(** [split] never uses up its rounds: more of them give the same pieces. *)
Theorem split_bound_enough (r : regex) (s : jsstring) (f : nat) :
  2 * length s + 2 <= f ->
  splitFrom r s 0 0 f = splitFrom r s 0 0 (2 * length s + 2).
Proof. intros H. apply splitFrom_bound; simpl; lia. Qed.

End RegExpFacts.

Lemma searchFrom_anchored (r : RegExp.regex) (s : jsstring) (i more : nat) :
  RegExp.searchFrom (RegExp.Seq RegExp.Bol r) s (S i) more = None.
Proof.
  revert i. induction more as [|n IH]; intros i; simpl; [reflexivity | apply IH].
Qed.

(** An expression that starts with [^] matches at index 0 or nowhere. *)
Lemma test_anchored (r : RegExp.regex) (s : jsstring) :
  RegExp.test (RegExp.Seq RegExp.Bol r) s =
  match RegExp.matchAt (RegExp.Seq RegExp.Bol r) s 0 with
  | Some _ => true
  | None => false
  end.
Proof.
  unfold RegExp.test, RegExp.exec. cbn [Nat.leb].
  destruct (length s - 0); cbn [RegExp.searchFrom];
    destruct (RegExp.matchAt (RegExp.Seq RegExp.Bol r) s 0); try reflexivity.
  rewrite searchFrom_anchored. reflexivity.
Qed.

(** [/^```/] tests for the prefix of three backticks. *)
Lemma test_fenceStart (line : jsstring) :
  RegExp.test fenceStart line = true <-> exists r, line = u "```" ++ r.
Proof.
  unfold fenceStart. cbn [RegExp.seq RegExp.lit u map].
  rewrite test_anchored. unfold RegExp.matchAt, RegExp.chr.
  cbn [RegExp.run RegExp.pos RegExp.rest skipn Nat.eqb].
  destruct line as [|a line]; [split; [discriminate | intros [r H]; discriminate]|].
  destruct (N.eqb_spec (N_of_ascii "`") a) as [<-|Na];
    [|split; [discriminate | intros [r H]; injection H; intros; exfalso; apply Na; symmetry; assumption]].
  destruct line as [|b line]; [split; [discriminate | intros [r H]; discriminate]|].
  destruct (N.eqb_spec (N_of_ascii "`") b) as [<-|Nb];
    [|split; [discriminate | intros [r H]; injection H; intros; exfalso; apply Nb; symmetry; assumption]].
  destruct line as [|c line]; [split; [discriminate | intros [r H]; discriminate]|].
  destruct (N.eqb_spec (N_of_ascii "`") c) as [<-|Nc];
    [|split; [discriminate | intros [r H]; injection H; intros; exfalso; apply Nc; symmetry; assumption]].
  split; [intros _; exists line; reflexivity | reflexivity].
Qed.

(** *** The extractor *)

(* The proofs below reason about these functions through their lemmas and
   evaluate them on closed inputs only. *)
Arguments trim : simpl never.
Arguments stripMarks : simpl never.
Arguments stripTitle : simpl never.
Arguments sanitizeTitle : simpl never.
Arguments deriveTitleFromText : simpl never.
Arguments nonblankLines : simpl never.
Arguments restOfText : simpl never.
Arguments fromRawText : simpl never.
Arguments JSON.parse : simpl never.
Arguments extractJsonFlexible : simpl never.
Arguments repairJson : simpl never.
Arguments parsedOf : simpl never.
Arguments cleaned : simpl never.
Arguments Set_of : simpl never.

Lemma Normal_inj {A} (a b : A) : Normal a = Normal b -> a = b.
Proof. intros H. injection H as H. exact H. Qed.

Lemma bind_Normal {A B} (c : completion A) (k : A -> completion B) (b : B) :
  bind c k = Normal b -> exists a, c = Normal a /\ k a = Normal b.
Proof. destruct c as [a|e]; [exists a; auto | discriminate]. Qed.

Section Properties.
Context {NS : NumberSemantics}.
Variable generateText : jsstring -> jsstring.

Lemma StringOrEmpty_string (s : jsstring) : StringOrEmpty (VString s) = Normal s.
Proof. destruct s; reflexivity. Qed.

(** Tags that are strings already are kept as they are. *)
Lemma mapM_ToString_strings (ts : list jsstring) :
  mapM ToString (map VString ts) = Normal ts.
Proof.
  induction ts as [|t ts IH]; [reflexivity|].
  cbn [map mapM ToString bind]. rewrite IH. reflexivity.
Qed.

Lemma sanitizeTitle_string (s : jsstring) :
  sanitizeTitle (VString s) =
  Normal (if isEmpty (stripTitle s) then placeholderTitle else stripTitle s).
Proof. unfold sanitizeTitle. rewrite StringOrEmpty_string. reflexivity. Qed.

Lemma sanitizeTitle_nonempty (v : value) (t : jsstring) :
  sanitizeTitle v = Normal t -> isEmpty t = false.
Proof.
  unfold sanitizeTitle. intros H.
  apply bind_Normal in H as [s [_ H]]. apply Normal_inj in H. subst t.
  destruct (isEmpty (stripTitle s)) eqn:E; [reflexivity | assumption].
Qed.

Lemma sanitizeTitle_blank (v : value) (s : jsstring) :
  StringOrEmpty v = Normal s ->
  forallb isWhiteSpace (stripMarks s) = true ->
  sanitizeTitle v = Normal placeholderTitle.
Proof.
  intros Hs Hb. unfold sanitizeTitle, stripTitle. rewrite Hs. unfold bind.
  rewrite trim_blank by assumption. reflexivity.
Qed.

Lemma deriveTitleFromText_normal (text : jsstring) :
  exists t, deriveTitleFromText text = Normal t /\ isEmpty t = false.
Proof.
  unfold deriveTitleFromText. rewrite sanitizeTitle_string.
  eexists. split; [reflexivity|].
  match goal with |- context [stripTitle ?l] => destruct (isEmpty (stripTitle l)) eqn:E end;
    [reflexivity | assumption].
Qed.

Lemma fromRawText_normal (text : jsstring) :
  exists t, fromRawText text = Normal {| title := t; draftBody := restOfText text; tags := [] |}
            /\ deriveTitleFromText text = Normal t /\ isEmpty t = false.
Proof.
  destruct (deriveTitleFromText_normal text) as [t [Ht Hn]].
  exists t. unfold fromRawText. rewrite Ht. auto.
Qed.

Lemma sanitizeTitle_undefined : sanitizeTitle VUndefined = Normal placeholderTitle.
Proof. vm_compute. reflexivity. Qed.

(** On a value that is no object, [if (parsed)] assigns the placeholder
    title, an empty body and no tags. *)
Lemma fromParsed_no_object (parsed : value) :
  ToBoolean parsed = true ->
  (forall props, parsed <> VObject props) ->
  fromParsed parsed = Normal {| title := placeholderTitle; draftBody := []; tags := [] |}.
Proof.
  intros Ht Hn. unfold fromParsed.
  destruct parsed; try discriminate;
    try (cbn [Get bind]; rewrite sanitizeTitle_undefined; reflexivity).
  exfalso. eapply Hn. reflexivity.
Qed.

(** [extract] when what the chain obtained is no object: the record is
    derived from the raw text. *)
Lemma extract_no_object (text : jsstring) :
  (forall props, parsedOf generateText text <> VObject props) ->
  extract generateText text = fromRawText text.
Proof.
  intros Hn. unfold extract.
  destruct (ToBoolean (parsedOf generateText text)) eqn:Ht; [|reflexivity].
  rewrite fromParsed_no_object by assumption. reflexivity.
Qed.

(** What [if (parsed)] assigns, field by field. *)
Lemma fromParsed_Normal (parsed : value) (r : DraftRecord) :
  fromParsed parsed = Normal r ->
  exists tv bv gv s,
    Get parsed (u "title") = Normal tv /\ sanitizeTitle tv = Normal (title r) /\
    Get parsed (u "draftBody") = Normal bv /\ StringOrEmpty bv = Normal s /\
    draftBody r = trim s /\
    Get parsed (u "tags") = Normal gv /\
    match gv with
    | VArray elements => mapM ToString elements
    | _ => Normal []
    end = Normal (tags r).
Proof.
  unfold fromParsed. intros H.
  apply bind_Normal in H as [t [Ht H]].
  apply bind_Normal in H as [b [Hb H]].
  apply bind_Normal in H as [g [Hg H]].
  apply Normal_inj in H. subst r. cbn [title draftBody tags].
  apply bind_Normal in Ht as [tv [Htv Ht]].
  apply bind_Normal in Hb as [bv [Hbv Hb]].
  apply bind_Normal in Hb as [s [Hs Hb]]. apply Normal_inj in Hb.
  apply bind_Normal in Hg as [gv [Hgv Hg]].
  exists tv, bv, gv, s. auto 10.
Qed.

(** [extract] when the chain obtained an object. *)
Lemma extract_object (text : jsstring) (props : list (jsstring * value)) :
  parsedOf generateText text = VObject props ->
  extract generateText text =
  (r <- fromParsed (VObject props) ;;
   if isEmpty (draftBody r) then fromRawText text else Normal r).
Proof.
  intros Hp. unfold extract. rewrite Hp. cbn [ToBoolean].
  destruct (fromParsed (VObject props)) as [r|e] eqn:E; [|reflexivity].
  cbn [bind].
  destruct (fromParsed_Normal _ E) as (tv & bv & gv & s & _ & Ht & _).
  apply sanitizeTitle_nonempty in Ht. rewrite Ht. reflexivity.
Qed.

Lemma extract_title (text : jsstring) (r : DraftRecord) :
  extract generateText text = Normal r ->
  exists v, sanitizeTitle v = Normal (title r).
Proof.
  intros H.
  assert (Hraw : fromRawText text = Normal r -> exists v, sanitizeTitle v = Normal (title r)).
  { unfold fromRawText. intros Hr. apply bind_Normal in Hr as [t [Ht Hr]].
    apply Normal_inj in Hr. subst r. cbn [title].
    unfold deriveTitleFromText in Ht. eexists. exact Ht. }
  destruct (parsedOf generateText text) as [| | | | | |props] eqn:Hp;
    try (rewrite extract_no_object in H by (rewrite Hp; discriminate); auto).
  rewrite (extract_object _ Hp) in H.
  apply bind_Normal in H as [r0 [E H]].
  destruct (isEmpty (draftBody r0)); [auto|].
  apply Normal_inj in H. subst r0.
  destruct (fromParsed_Normal _ E) as (tv & bv & gv & s & _ & Ht & _).
  exists tv. exact Ht.
Qed.

Lemma parsedOf_repair (text : jsstring) :
  ToBoolean (extractJsonFlexible text) = false ->
  parsedOf generateText text = repairJson generateText text.
Proof. intros H. unfold parsedOf. rewrite H. reflexivity. Qed.

Lemma find_first {A} (p : A -> bool) (before after : list A) (x : A) :
  forallb (fun y => negb (p y)) before = true -> p x = true ->
  find p (before ++ x :: after) = Some x.
Proof.
  intros Hb Hx. induction before as [|y l IH]; simpl.
  - rewrite Hx. reflexivity.
  - simpl in Hb. apply andb_prop in Hb as [Hy Hl].
    apply negb_true_iff in Hy. rewrite Hy. auto.
Qed.

Lemma joinElements_Normal (element : value -> completion jsstring) (l : list value) :
  Forall (fun e => exists s, element e = Normal s) l ->
  exists s, joinElements element l = Normal s.
Proof.
  induction 1 as [|e r [se Ee] Hr [sr Er]]; [eexists; reflexivity|].
  destruct r as [|e' r']; [exists se; exact Ee|].
  change (joinElements element (e :: e' :: r'))
    with (a <- element e ;; b <- joinElements element (e' :: r') ;; Normal (a ++ u "," ++ b)).
  rewrite Ee, Er. eexists. reflexivity.
Qed.

Lemma ToString_convertible (v : value) :
  convertible v = true -> exists s, ToString v = Normal s.
Proof.
  revert v. fix F 1. intros [ | |[|]|x|s|l|props] H; try (eexists; reflexivity).
  - cbn [ToString]. apply joinElements_Normal. cbn [convertible] in H. revert H.
    induction l as [|e r IH]; intros H; constructor.
    + apply andb_prop in H as [He _]. destruct (F e He) as [se Ee].
      destruct e; try (eexists; exact Ee); eexists; reflexivity.
    + apply andb_prop in H as [_ Hr]. exact (IH Hr).
  - cbn [ToString]. cbn [convertible] in H.
    destruct (ownProperty (u "toString") props); [discriminate | eexists; reflexivity].
Qed.

Lemma StringOrEmpty_convertible (v : value) :
  convertible v = true -> exists s, StringOrEmpty v = Normal s.
Proof.
  intros H. unfold StringOrEmpty. destruct (ToBoolean v); [|eexists; reflexivity].
  apply ToString_convertible. assumption.
Qed.

Lemma mapM_ToString_convertible (l : list value) :
  convertible (VArray l) = true -> exists g, mapM ToString l = Normal g.
Proof.
  cbn [convertible]. induction l as [|e r IH]; intros H; [eexists; reflexivity|].
  apply andb_prop in H as [He Hr].
  destruct (ToString_convertible _ He) as [se Ee]. destruct (IH Hr) as [g Eg].
  cbn [mapM]. rewrite Ee, Eg. eexists. reflexivity.
Qed.

(** Apart from what [String] cannot convert, [extract] returns a record
    (with the unbounded recursion of [ToString]). *)
Theorem extract_returns_when_convertible (text : jsstring) :
  (forall props, parsedOf generateText text = VObject props ->
     convertible (member (u "title") props) = true /\
     convertible (member (u "draftBody") props) = true /\
     convertible (member (u "tags") props) = true) ->
  exists r, extract generateText text = Normal r.
Proof.
  intros H.
  assert (Hraw : exists r, fromRawText text = Normal r).
  { destruct (fromRawText_normal text) as [t [Hr _]]. eexists. exact Hr. }
  destruct (parsedOf generateText text) as [| | | | | |props] eqn:Hp;
    try (rewrite extract_no_object by (rewrite Hp; discriminate); exact Hraw).
  destruct (H props eq_refl) as (Ht & Hb & Hg).
  rewrite (extract_object _ Hp).
  assert (E : exists r0, fromParsed (VObject props) = Normal r0).
  { unfold fromParsed. cbn [Get bind].
    destruct (StringOrEmpty_convertible _ Ht) as [st Et].
    destruct (StringOrEmpty_convertible _ Hb) as [sb Eb].
    unfold sanitizeTitle. rewrite Et, Eb. cbn [bind].
    destruct (member (u "tags") props) eqn:Eg; try (eexists; reflexivity).
    destruct (mapM_ToString_convertible _ Hg) as [g Hm]. rewrite Hm.
    eexists. reflexivity. }
  destruct E as [r0 E]. rewrite E. cbn [bind].
  destruct (isEmpty (draftBody r0)); [exact Hraw | eexists; reflexivity].
Qed.

(** C1, as amended. When the value the chain obtains is an object whose
    [title] and [draftBody] are strings and whose [tags] is an array, the
    record holds the sanitized title, the [draftBody] trimmed and the tags
    converted to strings, provided the trimmed [draftBody] is not empty;
    when it is empty the record is the one derived from the raw text. *)
Theorem C1_record_of_parsed_object
  (text : jsstring) (props : list (jsstring * value)) (t b : jsstring)
  (elements : list value) (ts : list jsstring) :
  parsedOf generateText text = VObject props ->
  member (u "title") props = VString t ->
  member (u "draftBody") props = VString b ->
  member (u "tags") props = VArray elements ->
  mapM ToString elements = Normal ts ->
  exists t',
    sanitizeTitle (VString t) = Normal t' /\
    extract generateText text =
    if isEmpty (trim b) then fromRawText text
    else Normal {| title := t'; draftBody := trim b; tags := ts |}.
Proof.
  intros Hp Ht Hb Hg Hts. rewrite (extract_object _ Hp).
  unfold fromParsed. cbn [Get bind]. rewrite Ht, Hb, Hg.
  rewrite sanitizeTitle_string, StringOrEmpty_string, Hts.
  cbn [bind draftBody]. eexists. split; reflexivity.
Qed.

(** C2. An object with a member named [toString] cannot be converted to a
    string: on [toStringTitleJson] the conversion of the title throws and
    [extract] returns no record. *)
Theorem C2_title_conversion_throws :
  extractJsonFlexible toStringTitleJson =
    VObject [(u "title", VObject [(u "toString", VNumber (u "1"))]);
             (u "draftBody", VString (u "b")); (u "tags", VArray [])]
  /\ extract generateText toStringTitleJson = Throw TypeError.
Proof. split; vm_compute; reflexivity. Qed.

(** C3. The title of the record [main] returns is never empty. What is
    sanitized is the [title] of the object obtained, when the record is
    built from that object, and the first line of the raw text that is
    neither blank nor starts with a code fence (the first that is not
    blank, when every line starts with one) when the record is derived
    from the raw text. The title is the placeholder whenever the
    replacements leave nothing but white space of that string, and what
    they leave, trimmed, otherwise. *)
Theorem C3_title_never_empty
  (text : jsstring) (inputTags : list jsstring) (r : DraftRecord) :
  main generateText text inputTags = Normal r ->
  isEmpty (title r) = false /\
  exists v s,
    ((exists props r0,
        parsedOf generateText text = VObject props /\
        fromParsed (VObject props) = Normal r0 /\
        isEmpty (draftBody r0) = false /\
        v = member (u "title") props)
     \/
     (extract generateText text = fromRawText text /\
      v = VString
            match find (fun line => negb (RegExp.test fenceStart line))
                       (nonblankLines text) with
            | Some line => line
            | None => match nonblankLines text with line :: _ => line | [] => [] end
            end)) /\
    StringOrEmpty v = Normal s /\
    title r = (if isEmpty (trim (stripMarks s)) then placeholderTitle
               else trim (stripMarks s)) /\
    (forallb isWhiteSpace (stripMarks s) = true -> title r = placeholderTitle).
Proof.
  unfold main. intros H. apply bind_Normal in H as [r0 [H0 H]].
  apply Normal_inj in H. subst r. cbn [title].
  assert (Hs : forall v, sanitizeTitle v = Normal (title r0) ->
            isEmpty (title r0) = false /\
            exists s, StringOrEmpty v = Normal s /\
              title r0 = (if isEmpty (trim (stripMarks s)) then placeholderTitle
                          else trim (stripMarks s)) /\
              (forallb isWhiteSpace (stripMarks s) = true -> title r0 = placeholderTitle)).
  { intros v Hv. split; [exact (sanitizeTitle_nonempty _ Hv)|].
    pose proof Hv as Hv'. unfold sanitizeTitle in Hv'.
    apply bind_Normal in Hv' as [s [Es Hv']]. apply Normal_inj in Hv'.
    exists s. split; [exact Es|]. split; [symmetry; exact Hv'|].
    intros Hblank. rewrite (sanitizeTitle_blank _ Es Hblank) in Hv.
    apply Normal_inj in Hv. symmetry. exact Hv. }
  assert (Hraw : extract generateText text = fromRawText text ->
            isEmpty (title r0) = false /\
            exists v s,
              ((exists props r1,
                  parsedOf generateText text = VObject props /\
                  fromParsed (VObject props) = Normal r1 /\
                  isEmpty (draftBody r1) = false /\
                  v = member (u "title") props)
               \/
               (extract generateText text = fromRawText text /\
                v = VString
                      match find (fun line => negb (RegExp.test fenceStart line))
                                 (nonblankLines text) with
                      | Some line => line
                      | None => match nonblankLines text with line :: _ => line | [] => [] end
                      end)) /\
              StringOrEmpty v = Normal s /\
              title r0 = (if isEmpty (trim (stripMarks s)) then placeholderTitle
                          else trim (stripMarks s)) /\
              (forallb isWhiteSpace (stripMarks s) = true -> title r0 = placeholderTitle)).
  { intros E. pose proof H0 as Hr. rewrite E in Hr. unfold fromRawText in Hr.
    apply bind_Normal in Hr as [t [Ht Hr]]. apply Normal_inj in Hr.
    assert (Et : t = title r0) by (rewrite <- Hr; reflexivity). rewrite Et in Ht.
    unfold deriveTitleFromText in Ht.
    destruct (Hs _ Ht) as [Hne [s Hrest]]. split; [exact Hne|].
    eexists. exists s. split; [right; split; [exact E | reflexivity]|]. exact Hrest. }
  destruct (parsedOf generateText text) as [| | | | | |props] eqn:Hp;
    try (apply Hraw; apply extract_no_object; intros props; rewrite Hp; discriminate).
  pose proof H0 as H1. rewrite (extract_object _ Hp) in H1.
  apply bind_Normal in H1 as [r1 [E H1]].
  destruct (isEmpty (draftBody r1)) eqn:Eb.
  - apply Hraw. rewrite (extract_object _ Hp), E. cbn [bind]. rewrite Eb. reflexivity.
  - apply Normal_inj in H1. subst r1.
    destruct (fromParsed_Normal _ E) as (tv & bv & gv & s0 & Htv & Ht & _).
    cbn [Get] in Htv. apply Normal_inj in Htv. subst tv.
    destruct (Hs _ Ht) as [Hne [s Hrest]]. split; [exact Hne|].
    exists (member (u "title") props), s. split; [|exact Hrest].
    left. exists props, r0. auto.
Qed.

(** C4, as amended. When the chain obtains no object, the title is the
    sanitized first line that is neither blank nor starts with a code
    fence, the body is the raw text without its first line, whichever
    line the title came from (line breaks become U+000A, the result is
    trimmed, and the whole raw text stands in when that is empty), and
    there are no tags. The prose of the specification's example gives
    the title and body stated there. *)
Theorem C4_record_of_raw_text :
  (forall text,
     (forall props, parsedOf generateText text <> VObject props) ->
     exists t,
       extract generateText text =
         Normal {| title := t;
                   draftBody :=
                     (let body := trim (join [LF] (tl (RegExp.split lineBreak text))) in
                      if isEmpty body then text else body);
                   tags := [] |} /\
       isEmpty t = false /\
       forall fences line rest,
         nonblankLines text = fences ++ line :: rest ->
         (forall f, In f fences -> exists r, f = u "```" ++ r) ->
         (forall r, line <> u "```" ++ r) ->
         sanitizeTitle (VString line) = Normal t) /\
  ((forall props, repairJson generateText plainProse <> VObject props) ->
   extract generateText plainProse =
     Normal {| title := u "My Great Title"; draftBody := u "Some body content"; tags := [] |}).
Proof.
  split.
  - intros text Hn. rewrite (extract_no_object _ Hn).
    destruct (fromRawText_normal text) as [t [Hr [Ht Hne]]].
    exists t. split; [exact Hr|]. split; [exact Hne|].
    intros fences line rest Hl Hf Hline.
    unfold deriveTitleFromText in Ht. rewrite Hl in Ht.
    rewrite find_first in Ht; [exact Ht | |].
    + apply forallb_forall. intros y Hy. apply negb_true_iff, negb_false_iff.
      apply test_fenceStart. exact (Hf y Hy).
    + apply negb_true_iff. destruct (RegExp.test fenceStart line) eqn:E; [|reflexivity].
      apply test_fenceStart in E as [r E]. destruct (Hline r E).
  - intros Hn. rewrite extract_no_object.
    + vm_compute. reflexivity.
    + rewrite parsedOf_repair by (vm_compute; reflexivity). exact Hn.
Qed.

(** C5. [extractJsonFlexible] returns what the first of its three
    candidates that parses gives, in the order: the cleaned text, the
    inside of a fenced block, the text from the first [{] to the last [}].
    The fenced example of the specification is read through the second,
    an object with prose around it through the third. *)
Theorem C5_strategies_in_order :
  (forall raw,
     extractJsonFlexible raw =
     firstParsed [Some (cleaned raw); fencedCandidate (cleaned raw);
                  slicedCandidate (cleaned raw)]) /\
  (JSON.parse (cleaned fencedJson) = Throw SyntaxError /\
   fencedCandidate (cleaned fencedJson) = Some plainJson /\
   extract generateText fencedJson =
     Normal {| title := u "T"; draftBody := u "B"; tags := [] |}) /\
  (JSON.parse (cleaned proseJson) = Throw SyntaxError /\
   fencedCandidate (cleaned proseJson) = None /\
   slicedCandidate (cleaned proseJson) = Some plainJson /\
   extract generateText proseJson =
     Normal {| title := u "T"; draftBody := u "B"; tags := [] |}).
Proof.
  split; [|repeat split; vm_compute; reflexivity].
  intros raw. unfold extractJsonFlexible, firstParsed. cbn [tryParse].
  destruct (JSON.parse (cleaned raw)); reflexivity.
Qed.

(** C6, as amended. The tags of the final record have no duplicates when
    the caller supplies at least one tag; when it supplies none they are
    the extracted tags as they are. *)
Theorem C6_no_duplicates_after_merge
  (text : jsstring) (inputTags : list jsstring) (r : DraftRecord) :
  main generateText text inputTags = Normal r ->
  exists r0,
    extract generateText text = Normal r0 /\
    (inputTags <> [] -> NoDup (tags r)) /\
    (inputTags = [] -> tags r = tags r0).
Proof.
  unfold main. intros H. apply bind_Normal in H as [r0 [H0 H]].
  apply Normal_inj in H. subst r. cbn [tags].
  exists r0. split; [assumption|]. split.
  - destruct inputTags as [|x l]; [congruence|]. intros _. apply Set_of_NoDup.
  - intros ->. reflexivity.
Qed.

(** C7. When the caller supplies at least one tag, the tags of the final
    record are the extracted tags and the supplied ones, each once. Merging
    [x, y] with [y, z] gives [x, y, z]. *)
Theorem C7_merged_tags_are_the_union :
  (forall text inputTags r0 r,
     inputTags <> [] ->
     extract generateText text = Normal r0 ->
     main generateText text inputTags = Normal r ->
     NoDup (tags r) /\
     forall t, In t (tags r) <-> In t (tags r0) \/ In t inputTags) /\
  mergeTags [u "x"; u "y"] [u "y"; u "z"] = [u "x"; u "y"; u "z"].
Proof.
  split; [|vm_compute; reflexivity].
  intros text inputTags r0 r Hne H0 H. unfold main in H. rewrite H0 in H.
  cbn [bind] in H. apply Normal_inj in H. subst r. cbn [tags].
  destruct inputTags as [|x l]; [congruence|]. cbn [mergeTags].
  split; [apply Set_of_NoDup|].
  intros t. rewrite Set_of_In, in_app_iff. reflexivity.
Qed.

(** C8. When the first answer gives nothing and the answer to the repair
    request gives no object, the record is derived from the text of the
    first answer: title and body are functions of that text alone. *)
Theorem C8_derivation_uses_first_text (text : jsstring) :
  ToBoolean (extractJsonFlexible text) = false ->
  (forall props, repairJson generateText text <> VObject props) ->
  extract generateText text = fromRawText text /\
  exists t,
    deriveTitleFromText text = Normal t /\
    extract generateText text =
      Normal {| title := t; draftBody := restOfText text; tags := [] |}.
Proof.
  intros H1 H2.
  assert (E : extract generateText text = fromRawText text).
  { apply extract_no_object. rewrite parsedOf_repair by assumption. exact H2. }
  split; [exact E|]. rewrite E.
  destruct (fromRawText_normal text) as [t [Hr [Ht _]]]. exists t. auto.
Qed.

(** C9, as amended. The text handed to the first [JSON.parse] is the input
    trimmed and then freed of every U+200B it holds, so the value of the
    direct parse is read from a text without one. White space around an
    object text and U+200B put anywhere into it, inside its field values
    too, do not stand in the way of the direct parse: the value is that of
    the object text without them, and so is the record built from it. *)
Theorem C9_text_is_cleaned_before_parsing :
  (forall raw, cleaned raw = removeAll ZWSP (trim raw) /\ ~ In ZWSP (cleaned raw)) /\
  (forall raw v, JSON.parse (cleaned raw) = Normal v -> extractJsonFlexible raw = v) /\
  (forall ws1 ws2 body body' props,
     forallb isWhiteSpace ws1 = true -> forallb isWhiteSpace ws2 = true ->
     removeAll ZWSP body' = 123%N :: body ++ [125%N] ->
     JSON.parse (123%N :: body ++ [125%N]) = Normal (VObject props) ->
     extractJsonFlexible (ws1 ++ body' ++ ws2) = VObject props /\
     forall r, fromParsed (VObject props) = Normal r ->
               isEmpty (draftBody r) = false ->
               extract generateText (ws1 ++ body' ++ ws2) = Normal r).
Proof.
  assert (direct : forall raw v,
             JSON.parse (cleaned raw) = Normal v -> extractJsonFlexible raw = v).
  { intros raw v H. unfold extractJsonFlexible. rewrite H. reflexivity. }
  split; [|split].
  - intros raw. split; [reflexivity | apply removeAll_absent].
  - exact direct.
  - intros ws1 ws2 body body' props H1 H2 Hb Hp.
    assert (E : extractJsonFlexible (ws1 ++ body' ++ ws2) = VObject props).
    { apply direct. rewrite (@cleaned_enclosed ws1 ws2 body body' H1 H2 Hb). exact Hp. }
    split; [exact E|]. intros r Hr Hne.
    assert (P : parsedOf generateText (ws1 ++ body' ++ ws2) = VObject props).
    { unfold parsedOf. rewrite E. reflexivity. }
    rewrite (extract_object _ P), Hr. cbn [bind]. rewrite Hne. reflexivity.
Qed.

(** C10. When the object the chain obtains has a [tags] member that is no
    array, or none, every record returned has no tags, and a record is
    returned whenever the title and the body convert to strings. *)
Theorem C10_tags_that_are_no_array
  (text : jsstring) (props : list (jsstring * value)) :
  parsedOf generateText text = VObject props ->
  (forall elements, member (u "tags") props <> VArray elements) ->
  (forall r, extract generateText text = Normal r -> tags r = []) /\
  (forall t s,
     sanitizeTitle (member (u "title") props) = Normal t ->
     StringOrEmpty (member (u "draftBody") props) = Normal s ->
     exists r, extract generateText text = Normal r /\ tags r = []).
Proof.
  intros Hp Hg.
  assert (Htags : forall r, fromParsed (VObject props) = Normal r -> tags r = []).
  { intros r E. destruct (fromParsed_Normal _ E) as (tv & bv & gv & s & _ & _ & _ & _ & _ & Hgv & Hr).
    cbn [Get] in Hgv. apply Normal_inj in Hgv. subst gv.
    destruct (member (u "tags") props); try (apply Normal_inj in Hr; congruence).
    exfalso. eapply Hg. reflexivity. }
  assert (Hraw : forall r, fromRawText text = Normal r -> tags r = []).
  { intros r E. destruct (fromRawText_normal text) as [t [Hr _]].
    rewrite Hr in E. apply Normal_inj in E. subst r. reflexivity. }
  rewrite (extract_object _ Hp). split.
  - intros r H. apply bind_Normal in H as [r0 [E H]].
    destruct (isEmpty (draftBody r0)); [auto|].
    apply Normal_inj in H. subst r0. auto.
  - intros t s Ht Hs.
    assert (E : exists r0, fromParsed (VObject props) = Normal r0).
    { unfold fromParsed. cbn [Get bind]. rewrite Ht, Hs. cbn [bind].
      destruct (member (u "tags") props); try (eexists; reflexivity).
      exfalso. eapply Hg. reflexivity. }
    destruct E as [r0 E]. rewrite E. cbn [bind].
    destruct (isEmpty (draftBody r0)).
    + destruct (fromRawText_normal text) as [t' [Hr _]]. rewrite Hr.
      eexists. split; reflexivity.
    + exists r0. split; [reflexivity | auto].
Qed.

End Properties.

(** *** Closed instances *)

(** An object of the expected shape with an empty [draftBody] is obtained
    by the direct parse, and the record is derived from the raw text all
    the same: its title is the whole text, its tags are gone. A
    [draftBody] with white space around it comes back trimmed. *)
Lemma C1_counterexample :
  extractJsonFlexible emptyBodyJson =
    VObject [(u "title", VString (u "T")); (u "draftBody", VString []);
             (u "tags", VArray [VString (u "a")])]
  /\ sanitizeTitle (VString (u "T")) = Normal (u "T")
  /\ extract noRepair emptyBodyJson =
       Normal {| title := emptyBodyJson; draftBody := emptyBodyJson; tags := [] |}
  /\ extractJsonFlexible paddedBodyJson =
       VObject [(u "title", VString (u "T")); (u "draftBody", VString (u " B "));
                (u "tags", VArray [])]
  /\ extract noRepair paddedBodyJson =
       Normal {| title := u "T"; draftBody := u "B"; tags := [] |}.
Proof. repeat split; vm_compute; reflexivity. Qed.

Lemma C1_witness :
  (parsedOf noRepair numberTagJson =
     VObject [(u "title", VString (u "# Hello")); (u "draftBody", VString (u " body text"));
              (u "tags", VArray [VString (u "a"); VNumber (u "7")])])
  /\ mapM ToString [VString (u "a"); VNumber (u "7")] = Normal [u "a"; u "7"]
  /\ exists t',
       sanitizeTitle (VString (u "# Hello")) = Normal t' /\
       extract noRepair numberTagJson =
       if isEmpty (trim (u " body text")) then fromRawText numberTagJson
       else Normal {| title := t'; draftBody := trim (u " body text");
                      tags := [u "a"; u "7"] |}.
Proof.
  split; [vm_compute; reflexivity|]. split; [vm_compute; reflexivity|].
  apply (@C1_record_of_parsed_object _ noRepair numberTagJson
           [(u "title", VString (u "# Hello")); (u "draftBody", VString (u " body text"));
            (u "tags", VArray [VString (u "a"); VNumber (u "7")])]
           (u "# Hello") (u " body text") [VString (u "a"); VNumber (u "7")]);
    vm_compute; reflexivity.
Defined.

(** The first example of the specification: the heading mark of the title
    is stripped. *)
Lemma hello_example :
  extract noRepair helloJson =
    Normal {| title := u "Hello"; draftBody := u "body text";
              tags := [u "a"; u "a"; u "b"] |}.
Proof. vm_compute. reflexivity. Qed.

(** A title of nothing but a heading mark is replaced by the placeholder. *)
Lemma blank_title_example :
  extract noRepair (dq (u "{'title':' # ','draftBody':'b','tags':[]}")) =
    Normal {| title := placeholderTitle; draftBody := u "b"; tags := [] |}.
Proof. vm_compute. reflexivity. Qed.

Lemma C3_witness :
  main noRepair (u "```json") [] =
    Normal {| title := placeholderTitle; draftBody := u "```json"; tags := [] |}
  /\ isEmpty placeholderTitle = false
  /\ exists v s,
       ((exists props r0,
           parsedOf noRepair (u "```json") = VObject props /\
           fromParsed (VObject props) = Normal r0 /\
           isEmpty (draftBody r0) = false /\
           v = member (u "title") props)
        \/
        (extract noRepair (u "```json") = fromRawText (u "```json") /\
         v = VString
               match find (fun line => negb (RegExp.test fenceStart line))
                          (nonblankLines (u "```json")) with
               | Some line => line
               | None => match nonblankLines (u "```json") with
                         | line :: _ => line
                         | [] => []
                         end
               end)) /\
       StringOrEmpty v = Normal s /\
       placeholderTitle = (if isEmpty (trim (stripMarks s)) then placeholderTitle
                           else trim (stripMarks s)) /\
       (forallb isWhiteSpace (stripMarks s) = true -> placeholderTitle = placeholderTitle).
Proof.
  split; [vm_compute; reflexivity|].
  apply (@C3_title_never_empty _ noRepair (u "```json") []
           {| title := placeholderTitle; draftBody := u "```json"; tags := [] |}).
  vm_compute; reflexivity.
Defined.

(** The title comes from the second line, and the body still holds it:
    only the first line of the raw text, here an empty one, is left out. *)
Lemma C4_counterexample :
  nonblankLines blankLineProse = [u "Title"; u "Body"]
  /\ parsedOf noRepair blankLineProse = VNull
  /\ extract noRepair blankLineProse =
       Normal {| title := u "Title";
                 draftBody := u "Title" ++ [LF] ++ u "Body";
                 tags := [] |}.
Proof. repeat split; vm_compute; reflexivity. Qed.

Lemma C4_witness :
  (forall props, parsedOf noRepair blankLineProse <> VObject props)
  /\ (forall props, repairJson noRepair plainProse <> VObject props)
  /\ (exists t,
        extract noRepair blankLineProse =
          Normal {| title := t;
                    draftBody :=
                      (let body := trim (join [LF] (tl (RegExp.split lineBreak blankLineProse))) in
                       if isEmpty body then blankLineProse else body);
                    tags := [] |} /\
        isEmpty t = false /\
        forall fences line rest,
          nonblankLines blankLineProse = fences ++ line :: rest ->
          (forall f, In f fences -> exists r, f = u "```" ++ r) ->
          (forall r, line <> u "```" ++ r) ->
          sanitizeTitle (VString line) = Normal t)
  /\ extract noRepair plainProse =
       Normal {| title := u "My Great Title"; draftBody := u "Some body content";
                 tags := [] |}.
Proof.
  assert (H1 : forall props, parsedOf noRepair blankLineProse <> VObject props)
    by (intros props; vm_compute; discriminate).
  assert (H2 : forall props, repairJson noRepair plainProse <> VObject props)
    by (intros props; vm_compute; discriminate).
  split; [exact H1|]. split; [exact H2|].
  destruct (@C4_record_of_raw_text _ noRepair) as [G1 G2].
  split; [exact (G1 blankLineProse H1) | exact (G2 H2)].
Defined.

(** With no tags supplied the repeated tag of the specification's own
    example stays. *)
Lemma C6_counterexample :
  main noRepair helloJson [] =
    Normal {| title := u "Hello"; draftBody := u "body text";
              tags := [u "a"; u "a"; u "b"] |}
  /\ ~ NoDup [u "a"; u "a"; u "b"].
Proof.
  split; [vm_compute; reflexivity|].
  intros H. inversion H as [|x l Hin _]. apply Hin. left. reflexivity.
Qed.

Lemma C6_witness :
  main noRepair helloJson [u "b"; u "c"] =
    Normal {| title := u "Hello"; draftBody := u "body text";
              tags := [u "a"; u "b"; u "c"] |}
  /\ exists r0,
       extract noRepair helloJson = Normal r0 /\
       ([u "b"; u "c"] <> [] -> NoDup [u "a"; u "b"; u "c"]) /\
       ([u "b"; u "c"] = [] -> [u "a"; u "b"; u "c"] = tags r0).
Proof.
  split; [vm_compute; reflexivity|].
  apply (@C6_no_duplicates_after_merge _ noRepair helloJson [u "b"; u "c"]
           {| title := u "Hello"; draftBody := u "body text";
              tags := [u "a"; u "b"; u "c"] |}).
  vm_compute; reflexivity.
Defined.

Lemma C7_witness :
  [u "y"; u "z"] <> []
  /\ (NoDup [u "x"; u "y"; u "z"] /\
      forall t, In t [u "x"; u "y"; u "z"] <-> In t [u "x"; u "y"] \/ In t [u "y"; u "z"])
  /\ mergeTags [u "x"; u "y"] [u "y"; u "z"] = [u "x"; u "y"; u "z"].
Proof.
  split; [discriminate|].
  destruct (@C7_merged_tags_are_the_union _ noRepair) as [G1 G2].
  split; [|exact G2].
  apply (G1 (dq (u "{'title':'T','draftBody':'B','tags':['x','y']}")) [u "y"; u "z"]
            {| title := u "T"; draftBody := u "B"; tags := [u "x"; u "y"] |}
            {| title := u "T"; draftBody := u "B"; tags := [u "x"; u "y"; u "z"] |});
    [discriminate | vm_compute; reflexivity | vm_compute; reflexivity].
Defined.

Lemma C8_witness :
  ToBoolean (extractJsonFlexible plainProse) = false
  /\ (forall props, repairJson noRepair plainProse <> VObject props)
  /\ extract noRepair plainProse = fromRawText plainProse
  /\ exists t,
       deriveTitleFromText plainProse = Normal t /\
       extract noRepair plainProse =
         Normal {| title := t; draftBody := restOfText plainProse; tags := [] |}.
Proof.
  assert (H1 : ToBoolean (extractJsonFlexible plainProse) = false)
    by (vm_compute; reflexivity).
  assert (H2 : forall props, repairJson noRepair plainProse <> VObject props)
    by (intros props; vm_compute; discriminate).
  split; [exact H1|]. split; [exact H2|].
  exact (@C8_derivation_uses_first_text _ noRepair plainProse H1 H2).
Defined.

(** A U+200B written as an escape sequence is no U+200B of the text: the
    cleaning leaves it alone, the direct parse decodes it, and the title of
    the record holds it. And the trim comes before the deletion: a U+200B
    in front of a no-break space keeps [trim] from removing that space, the
    text that reaches [JSON.parse] starts with white space, and the direct
    parse of an otherwise plain object text fails (the slice between the
    braces recovers the object). *)
Lemma C9_counterexample :
  (cleaned escapedZwspJson = escapedZwspJson
   /\ ~ In ZWSP escapedZwspJson
   /\ JSON.parse (cleaned escapedZwspJson) =
        Normal (VObject [(u "title", VString [97%N; ZWSP; 98%N]);
                         (u "draftBody", VString (u "x")); (u "tags", VArray [])])
   /\ extract noRepair escapedZwspJson =
        Normal {| title := [97%N; ZWSP; 98%N]; draftBody := u "x"; tags := [] |})
  /\
  (cleaned shieldedJson = NBSP :: plainJson
   /\ isWhiteSpace NBSP = true
   /\ JSON.parse (cleaned shieldedJson) = Throw SyntaxError
   /\ JSON.parse plainJson =
        Normal (VObject [(u "title", VString (u "T")); (u "draftBody", VString (u "B"));
                         (u "tags", VArray [])])
   /\ slicedCandidate (cleaned shieldedJson) = Some plainJson).
Proof.
  split.
  - split; [vm_compute; reflexivity|]. split; [|split; vm_compute; reflexivity].
    intros H. vm_compute in H.
    repeat (destruct H as [H|H]; [discriminate H|]). exact H.
  - repeat split; vm_compute; reflexivity.
Qed.

Lemma C9_witness :
  (forallb isWhiteSpace [NBSP; LF] = true /\ forallb isWhiteSpace (u "  ") = true)
  /\ extractJsonFlexible
       ([NBSP; LF]
        ++ ([ZWSP] ++ dq (u "{'title':'a") ++ [ZWSP] ++ dq (u "b','draftBody':'x'}") ++ [ZWSP])
        ++ u "  ") =
     VObject [(u "title", VString (u "ab")); (u "draftBody", VString (u "x"))]
  /\ extract noRepair
       ([NBSP; LF]
        ++ ([ZWSP] ++ dq (u "{'title':'a") ++ [ZWSP] ++ dq (u "b','draftBody':'x'}") ++ [ZWSP])
        ++ u "  ") =
     Normal {| title := u "ab"; draftBody := u "x"; tags := [] |}.
Proof.
  split; [split; vm_compute; reflexivity|].
  destruct (@C9_text_is_cleaned_before_parsing _ noRepair) as [_ [_ G]].
  destruct (G [NBSP; LF] (u "  ") (dq (u "'title':'ab','draftBody':'x'"))
              ([ZWSP] ++ dq (u "{'title':'a") ++ [ZWSP] ++ dq (u "b','draftBody':'x'}") ++ [ZWSP])
              [(u "title", VString (u "ab")); (u "draftBody", VString (u "x"))])
    as [G1 G2]; try (vm_compute; reflexivity).
  split; [exact G1|].
  apply G2; vm_compute; reflexivity.
Defined.

Lemma C10_witness :
  parsedOf noRepair stringTagsJson =
    VObject [(u "title", VString (u "T")); (u "draftBody", VString (u "B"));
             (u "tags", VString (u "x, y"))]
  /\ extract noRepair stringTagsJson =
       Normal {| title := u "T"; draftBody := u "B"; tags := [] |}
  /\ (forall r, extract noRepair stringTagsJson = Normal r -> tags r = []).
Proof.
  split; [vm_compute; reflexivity|]. split; [vm_compute; reflexivity|].
  apply (@C10_tags_that_are_no_array _ noRepair stringTagsJson
           [(u "title", VString (u "T")); (u "draftBody", VString (u "B"));
            (u "tags", VString (u "x, y"))]).
  - vm_compute; reflexivity.
  - intros elements. vm_compute. discriminate.
Defined.

(** *** The caller's tags *)

Lemma trimStart_idempotent (s : jsstring) : trimStart (trimStart s) = trimStart s.
Proof.
  induction s as [|c r IH]; [reflexivity|]. simpl.
  destruct (isWhiteSpace c) eqn:E; [exact IH|]. simpl. rewrite E. reflexivity.
Qed.

Lemma trimStart_snoc_solid (s : jsstring) (c : codeunit) :
  isWhiteSpace c = false -> trimStart (s ++ [c]) = trimStart s ++ [c].
Proof.
  intros H. induction s as [|x r IH]; simpl; [rewrite H; reflexivity|].
  destruct (isWhiteSpace x); [exact IH | reflexivity].
Qed.

Lemma trimEnd_cons_solid (c : codeunit) (s : jsstring) :
  isWhiteSpace c = false -> trimEnd (c :: s) = c :: trimEnd s.
Proof.
  intros H. unfold trimEnd. simpl rev. rewrite trimStart_snoc_solid by assumption.
  rewrite rev_app_distr. reflexivity.
Qed.

Lemma trimEnd_idempotent (s : jsstring) : trimEnd (trimEnd s) = trimEnd s.
Proof. unfold trimEnd. rewrite rev_involutive, trimStart_idempotent. reflexivity. Qed.

Lemma trimStart_cases (s : jsstring) :
  trimStart s = [] \/ exists c r, trimStart s = c :: r /\ isWhiteSpace c = false.
Proof.
  induction s as [|c r IH]; [left; reflexivity|]. simpl.
  destruct (isWhiteSpace c) eqn:E; [exact IH|]. right. exists c, r. auto.
Qed.

(** [trim] leaves a trimmed string as it is. *)
Lemma trim_idempotent (s : jsstring) : trim (trim s) = trim s.
Proof.
  change (trim s) with (trimEnd (trimStart s)).
  destruct (trimStart_cases s) as [E | (c & r & E & H)]; rewrite E.
  - reflexivity.
  - rewrite trimEnd_cons_solid by assumption. unfold trim.
    rewrite trimStart_solid by assumption.
    rewrite trimEnd_cons_solid by assumption. rewrite trimEnd_idempotent. reflexivity.
Qed.

Lemma trimStart_In (s : jsstring) (x : codeunit) : In x (trimStart s) -> In x s.
Proof.
  induction s as [|c r IH]; [auto|]. simpl.
  destruct (isWhiteSpace c); [right; auto | auto].
Qed.

Lemma trim_In (s : jsstring) (x : codeunit) : In x (trim s) -> In x s.
Proof.
  unfold trim, trimEnd. intros H. apply in_rev in H. apply trimStart_In in H.
  apply in_rev in H. apply trimStart_In in H. exact H.
Qed.

Lemma splitOn_no_separator (c : codeunit) (s piece : jsstring) :
  In piece (splitOn c s) -> ~ In c piece.
Proof.
  revert piece. induction s as [|x r IH]; intros piece H; simpl in H.
  - destruct H as [<- | []]. auto.
  - destruct (N.eqb_spec x c) as [->|Hx].
    + destruct H as [<- | H]; [auto | apply IH; assumption].
    + destruct (splitOn c r) as [|p ps] eqn:E.
      * destruct H as [<- | []]. intros [-> | []]. congruence.
      * destruct H as [<- | H].
        -- intros [-> | Hin]; [congruence | apply (IH p); [left; reflexivity | assumption]].
        -- apply IH. right. assumption.
Qed.

(** X1. Every tag read from [INPUT_TAGS] is non-empty, holds no comma and
    has no white space at either end. *)
Theorem inputTags_are_clean (INPUT_TAGS : option jsstring) (t : jsstring) :
  In t (inputTagsOf INPUT_TAGS) ->
  isEmpty t = false /\ ~ In 44%N t /\ trim t = t.
Proof.
  unfold inputTagsOf. intros H. apply filter_In in H as [H Hne].
  apply negb_true_iff in Hne. apply in_map_iff in H as (piece & <- & H).
  split; [assumption|]. split.
  - intros Hc. apply trim_In in Hc. eapply splitOn_no_separator; eassumption.
  - apply trim_idempotent.
Qed.

Lemma splitOn_blank (s piece : jsstring) :
  forallb (fun c => isWhiteSpace c || (c =? 44)%N) s = true ->
  In piece (splitOn 44%N s) -> forallb isWhiteSpace piece = true.
Proof.
  revert piece. induction s as [|x r IH]; intros piece Hs H; simpl in H.
  - destruct H as [<- | []]. reflexivity.
  - simpl in Hs. apply andb_prop in Hs as [Hx Hr].
    destruct (x =? 44)%N eqn:E.
    + destruct H as [<- | H]; [reflexivity | auto].
    + rewrite orb_false_r in Hx. destruct (splitOn 44%N r) as [|p ps] eqn:Ep.
      * destruct H as [<- | []]. simpl. rewrite Hx. reflexivity.
      * destruct H as [<- | H].
        -- simpl. rewrite Hx. apply IH; [assumption | left; reflexivity].
        -- apply IH; [assumption | right; assumption].
Qed.

(** X2. An [INPUT_TAGS] that is not set, or holds only commas and white
    space, gives no tag, so that nothing is merged. *)
Theorem inputTags_of_blank (INPUT_TAGS : option jsstring) :
  (forall s, INPUT_TAGS = Some s ->
             forallb (fun c => isWhiteSpace c || (c =? 44)%N) s = true) ->
  inputTagsOf INPUT_TAGS = [].
Proof.
  intros H. unfold inputTagsOf.
  set (text := match INPUT_TAGS with Some s => s | None => [] end).
  assert (Ht : forallb (fun c => isWhiteSpace c || (c =? 44)%N) text = true).
  { subst text. destruct INPUT_TAGS as [s|]; [apply H; reflexivity | reflexivity]. }
  assert (G : forall l, (forall p, In p l -> forallb isWhiteSpace p = true) ->
            filter (fun value => negb (isEmpty value)) (map trim l) = []).
  { induction l as [|p l IH]; intros Hl; [reflexivity|]. simpl.
    rewrite trim_blank by (apply Hl; left; reflexivity). simpl.
    apply IH. intros q Hq. apply Hl. right. assumption. }
  apply G. intros p Hp. eapply splitOn_blank; eassumption.
Qed.

Lemma splitOn_whole (c : codeunit) (p : jsstring) : ~ In c p -> splitOn c p = [p].
Proof.
  induction p as [|x r IH]; intros H; [reflexivity|]. simpl.
  destruct (N.eqb_spec x c) as [->|Hx]; [exfalso; apply H; left; reflexivity|].
  rewrite IH; [reflexivity|]. intros Hin. apply H. right. assumption.
Qed.

Lemma splitOn_app (c : codeunit) (p r : jsstring) :
  ~ In c p -> splitOn c (p ++ c :: r) = p :: splitOn c r.
Proof.
  induction p as [|x q IH]; intros H; simpl.
  - rewrite N.eqb_refl. reflexivity.
  - destruct (N.eqb_spec x c) as [->|Hx]; [exfalso; apply H; left; reflexivity|].
    rewrite IH; [reflexivity|]. intros Hin. apply H. right. assumption.
Qed.

Lemma splitOn_join (c : codeunit) (ts : list jsstring) :
  ts <> [] -> (forall t, In t ts -> ~ In c t) -> splitOn c (join [c] ts) = ts.
Proof.
  induction ts as [|t ts IH]; intros Hne H; [congruence|].
  destruct ts as [|t' ts'].
  - simpl. apply splitOn_whole. apply H. left. reflexivity.
  - change (join [c] (t :: t' :: ts')) with (t ++ c :: join [c] (t' :: ts')).
    rewrite splitOn_app by (apply H; left; reflexivity).
    rewrite IH; [reflexivity | discriminate |]. intros x Hx. apply H. right. assumption.
Qed.

(** X3. Tags that are non-empty, hold no comma and are trimmed, written
    with commas between them, are read back as they are. *)
Theorem inputTags_round_trip (ts : list jsstring) :
  (forall t, In t ts -> isEmpty t = false /\ ~ In 44%N t /\ trim t = t) ->
  inputTagsOf (Some (join [44%N] ts)) = ts.
Proof.
  intros H. unfold inputTagsOf. destruct ts as [|t0 ts0] eqn:E; [reflexivity|].
  rewrite <- E in *. rewrite splitOn_join; [| rewrite E; discriminate | intros t Ht; apply H; assumption].
  clear E. induction ts as [|t ts IH]; [reflexivity|]. simpl.
  destruct (H t (or_introl eq_refl)) as (Hne & _ & Ht). rewrite Ht, Hne. simpl.
  f_equal. apply IH. intros x Hx. apply H. right. assumption.
Qed.

Lemma Set_add_present (s : list jsstring) (x : jsstring) : In x s -> Set_add s x = s.
Proof.
  intros H. unfold Set_add. apply existsb_eqb_In in H. rewrite H. reflexivity.
Qed.

Lemma Set_add_absent (s : list jsstring) (x : jsstring) : ~ In x s -> Set_add s x = s ++ [x].
Proof.
  intros H. unfold Set_add. destruct (existsb (jsstring_eqb x) s) eqn:E; [|reflexivity].
  apply existsb_eqb_In in E. contradiction.
Qed.

(** Adding [l] to a set that starts with [acc]: the elements of [acc] stay
    in front, and what comes after them never sees those of [l] that are
    in [acc]. *)
Lemma fold_Set_add_app (l acc e : list jsstring) :
  fold_left Set_add l (acc ++ e) = acc ++ fold_left Set_add (newTags acc l) e.
Proof.
  revert e. induction l as [|x l IH]; intros e; [reflexivity|].
  assert (Hx : Set_add (acc ++ e) x
               = if existsb (jsstring_eqb x) acc then acc ++ e else acc ++ Set_add e x).
  { unfold Set_add. rewrite existsb_app.
    destruct (existsb (jsstring_eqb x) acc); [reflexivity|]. cbn [orb].
    destruct (existsb (jsstring_eqb x) e); [reflexivity|].
    symmetry. apply app_assoc. }
  assert (Hn : newTags acc (x :: l)
               = if existsb (jsstring_eqb x) acc then newTags acc l else x :: newTags acc l).
  { unfold newTags. cbn [filter]. destruct (existsb (jsstring_eqb x) acc); reflexivity. }
  cbn [fold_left]. rewrite Hx, Hn.
  destruct (existsb (jsstring_eqb x) acc); [apply IH|].
  cbn [fold_left]. apply IH.
Qed.

Lemma fold_Set_add_fresh (l acc : list jsstring) :
  NoDup (acc ++ l) -> fold_left Set_add l acc = acc ++ l.
Proof.
  revert acc. induction l as [|x l IH]; intros acc H; simpl.
  - symmetry. apply app_nil_r.
  - assert (Hx : ~ In x acc).
    { intros Hin. apply NoDup_remove_2 in H. apply H. apply in_or_app. left. assumption. }
    rewrite Set_add_absent by assumption. rewrite IH.
    + rewrite <- app_assoc. reflexivity.
    + rewrite <- app_assoc. exact H.
Qed.

Lemma fold_Set_add_known (l acc : list jsstring) :
  (forall x, In x l -> In x acc) -> fold_left Set_add l acc = acc.
Proof.
  revert acc. induction l as [|x l IH]; intros acc H; simpl; [reflexivity|].
  rewrite Set_add_present by (apply H; left; reflexivity).
  apply IH. intros y Hy. apply H. right. assumption.
Qed.

Lemma Set_of_NoDup_id (l : list jsstring) : NoDup l -> Set_of l = l.
Proof. intros H. unfold Set_of. exact (@fold_Set_add_fresh l [] H). Qed.

(** X4. When the extracted tags hold no tag twice, the merged tags are the
    extracted ones, in their order, followed by the supplied tags that are
    not among them, each once, in the order in which they first occur. *)
Theorem mergeTags_keeps_the_tags_in_front (tags inputTags : list jsstring) :
  NoDup tags ->
  mergeTags tags inputTags = tags ++ Set_of (newTags tags inputTags).
Proof.
  intros H. destruct inputTags as [|x l]; [symmetry; apply app_nil_r|].
  cbn [mergeTags]. unfold Set_of at 1. rewrite fold_left_app.
  change (fold_left Set_add tags []) with (Set_of tags). rewrite Set_of_NoDup_id by assumption.
  rewrite <- (app_nil_r tags) at 1. apply fold_Set_add_app.
Qed.

(** X5. Merging the supplied tags a second time changes nothing. *)
Theorem mergeTags_idempotent (tags inputTags : list jsstring) :
  mergeTags (mergeTags tags inputTags) inputTags = mergeTags tags inputTags.
Proof.
  destruct inputTags as [|x l]; [reflexivity|].
  cbn [mergeTags]. unfold Set_of at 1. rewrite fold_left_app.
  change (fold_left Set_add (Set_of (tags ++ x :: l)) []) with (Set_of (Set_of (tags ++ x :: l))).
  rewrite Set_of_NoDup_id by apply Set_of_NoDup.
  apply fold_Set_add_known. intros y Hy. apply Set_of_In. apply in_or_app. right. assumption.
Qed.

(** *** Lines and titles *)

Lemma In_skipn_list {A} (n : nat) (l : list A) (x : A) : In x (skipn n l) -> In x l.
Proof. intros H. rewrite <- (firstn_skipn n l). apply in_or_app. right. exact H. Qed.

Lemma In_firstn_list {A} (n : nat) (l : list A) (x : A) : In x (firstn n l) -> In x l.
Proof. intros H. rewrite <- (firstn_skipn n l). apply in_or_app. left. exact H. Qed.

Lemma slice_In (s : jsstring) (p q : nat) (x : codeunit) : In x (slice s p q) -> In x s.
Proof. unfold slice. intros H. apply In_firstn_list in H. apply In_skipn_list in H. exact H. Qed.

Lemma splitFrom_In (r : RegExp.regex) (s : jsstring) (fuel : nat) :
  forall p q piece x, In piece (RegExp.splitFrom r s p q fuel) -> In x piece -> In x s.
Proof.
  induction fuel as [|fuel IH]; intros p q piece x H Hx; cbn [RegExp.splitFrom] in H.
  - destruct H as [<- | []]. eapply In_skipn_list; eassumption.
  - destruct (length s <=? q).
    + destruct H as [<- | []]. eapply In_skipn_list; eassumption.
    + destruct (RegExp.matchAt r s q) as [st|]; [|eapply IH; eassumption].
      destruct (Nat.min (RegExp.pos st) (length s) =? p); [eapply IH; eassumption|].
      destruct H as [<- | H]; [eapply slice_In; eassumption | eapply IH; eassumption].
Qed.

(** The pieces of a split hold code units of the text only. *)
Lemma split_In (r : RegExp.regex) (s piece : jsstring) (x : codeunit) :
  In piece (RegExp.split r s) -> In x piece -> In x s.
Proof.
  unfold RegExp.split. destruct s as [|c s'].
  - destruct (RegExp.matchAt r [] 0); [intros [] | intros [<- | []]; auto].
  - apply splitFrom_In.
Qed.

Lemma nonblankLines_of_blank (text : jsstring) :
  forallb isWhiteSpace text = true -> nonblankLines text = [].
Proof.
  intros H. unfold nonblankLines.
  assert (G : forall l, (forall p, In p l -> forallb isWhiteSpace p = true) ->
            filter (fun line => negb (isEmpty line)) (map trim l) = []).
  { induction l as [|p l IH]; intros Hl; [reflexivity|]. simpl.
    rewrite trim_blank by (apply Hl; left; reflexivity). simpl.
    apply IH. intros q Hq. apply Hl. right. assumption. }
  apply G. intros p Hp. apply forallb_forall. intros x Hx.
  rewrite forallb_forall in H. apply H. eapply split_In; eassumption.
Qed.

Lemma find_none {A} (p : A -> bool) (l : list A) :
  (forall x, In x l -> p x = false) -> find p l = None.
Proof.
  induction l as [|a l IH]; intros H; [reflexivity|]. simpl.
  rewrite (H a (or_introl eq_refl)). apply IH. intros x Hx. apply H. right. assumption.
Qed.

Section Titles.
Context {NS : NumberSemantics}.

(** X10. A text of white space only, the empty text too, gets the
    placeholder title. *)
Theorem deriveTitle_of_blank_text (text : jsstring) :
  forallb isWhiteSpace text = true ->
  deriveTitleFromText text = Normal placeholderTitle.
Proof.
  intros H. unfold deriveTitleFromText.
  rewrite (nonblankLines_of_blank _ H). vm_compute. reflexivity.
Qed.

(** X11. When every line that is not blank starts with a code fence, the
    title is taken from the first of them. *)
Theorem deriveTitle_of_fenced_lines (text line : jsstring) (lines : list jsstring) :
  nonblankLines text = line :: lines ->
  (forall l, In l (line :: lines) -> exists r, l = u "```" ++ r) ->
  deriveTitleFromText text = sanitizeTitle (VString line).
Proof.
  intros E H. unfold deriveTitleFromText. rewrite E.
  rewrite find_none; [reflexivity|]. intros x Hx.
  apply negb_false_iff. apply test_fenceStart. apply H. exact Hx.
Qed.

End Titles.

(** *** The slice between the braces *)

Lemma indexOf_Some (c : codeunit) (s : jsstring) (i : nat) :
  indexOf c s = Some i ->
  exists pre post, s = pre ++ c :: post /\ length pre = i /\ ~ In c pre.
Proof.
  revert i. induction s as [|x r IH]; intros i H; [discriminate|]. simpl in H.
  destruct (N.eqb_spec x c) as [->|Hx].
  - injection H as <-. exists [], r. auto.
  - destruct (indexOf c r) as [j|] eqn:E; [|discriminate]. injection H as <-.
    destruct (IH j eq_refl) as (pre & post & -> & L & N).
    exists (x :: pre), post. split; [reflexivity|]. split; [simpl; lia|].
    intros [-> | Hin]; [congruence | auto].
Qed.

Lemma indexOf_None (c : codeunit) (s : jsstring) : indexOf c s = None -> ~ In c s.
Proof.
  induction s as [|x r IH]; intros H; [auto|]. simpl in H.
  destruct (N.eqb_spec x c) as [->|Hx]; [discriminate|].
  destruct (indexOf c r) eqn:E; [discriminate|].
  intros [-> | Hin]; [congruence | exact (IH eq_refl Hin)].
Qed.

Lemma indexOf_In (c : codeunit) (s : jsstring) : In c s -> exists i, indexOf c s = Some i.
Proof.
  intros H. destruct (indexOf c s) as [i|] eqn:E; [exists i; reflexivity|].
  apply indexOf_None in E. contradiction.
Qed.

Lemma lastIndexOf_Some (c : codeunit) (s : jsstring) (j : nat) :
  lastIndexOf c s = Some j ->
  exists pre post, s = pre ++ c :: post /\ length pre = j /\ ~ In c post.
Proof.
  unfold lastIndexOf. destruct (indexOf c (rev s)) as [k|] eqn:E; [|discriminate].
  intros H. injection H as <-.
  apply indexOf_Some in E as (rpost & rpre & E & L & N).
  exists (rev rpre), (rev rpost). 
  assert (Es : s = rev rpre ++ c :: rev rpost).
  { rewrite <- (rev_involutive s), E, rev_app_distr. simpl. rewrite <- app_assoc. reflexivity. }
  split; [exact Es|]. split.
  - rewrite Es at 1. rewrite length_app. simpl. rewrite !length_rev. lia.
  - intros Hin. apply in_rev in Hin. contradiction.
Qed.

(** X12. The third candidate of [extractJsonFlexible] starts at the first
    opening brace of the text and ends at its last closing brace. *)
Theorem slicedCandidate_spans_the_braces (text candidate : jsstring) :
  slicedCandidate text = Some candidate ->
  exists pre mid post,
    text = pre ++ ([123%N] ++ mid ++ [125%N]) ++ post /\
    candidate = [123%N] ++ mid ++ [125%N] /\
    ~ In 123%N pre /\ ~ In 125%N post.
Proof.
  unfold slicedCandidate.
  destruct (indexOf 123%N text) as [i|] eqn:Ei; [|discriminate].
  destruct (lastIndexOf 125%N text) as [j|] eqn:Ej; [|discriminate].
  destruct (i <? j) eqn:L; [|discriminate]. apply Nat.ltb_lt in L.
  intros H. injection H as <-.
  apply indexOf_Some in Ei as (pre & t1 & E1 & L1 & N1).
  apply lastIndexOf_Some in Ej as (pre2 & post & E2 & L2 & N2).
  assert (Hmid : exists mid : jsstring, pre2 = pre ++ 123%N :: mid).
  { exists (skipn (S i) pre2).
    assert (F : firstn (S i) text = pre ++ [123%N]).
    { assert (Hl : length (pre ++ [123%N]) = S i)
        by (rewrite length_app; cbn [length]; lia).
      rewrite E1. rewrite <- Hl. rewrite firstn_app.
      rewrite firstn_all2 by (rewrite length_app; lia).
      replace (length (pre ++ [123%N]) - length pre) with 1
        by (rewrite length_app; cbn [length]; lia).
      reflexivity. }
    assert (F2 : firstn (S i) text = firstn (S i) pre2).
    { rewrite E2. rewrite firstn_app. replace (S i - length pre2) with 0 by lia.
      cbn [firstn]. apply app_nil_r. }
    rewrite <- (firstn_skipn (S i) pre2) at 1. rewrite <- F2, F.
    rewrite <- app_assoc. reflexivity. }
  destruct Hmid as [mid ->].
  exists pre, mid, post. split; [|split; [|auto]].
  - rewrite E2. rewrite <- !app_assoc. reflexivity.
  - unfold slice. rewrite E2, <- app_assoc, <- L1.
    rewrite skipn_app, skipn_all, Nat.sub_diag. cbn [skipn app].
    rewrite length_app in L2. cbn [length] in L2.
    assert (Hn : j + 1 - length pre = S (length mid) + 1) by lia.
    rewrite Hn. clear. induction mid as [|x mid IH]; [reflexivity|].
    cbn [length Nat.add firstn app] in *. injection IH as IH. rewrite IH. reflexivity.
Qed.

Lemma indexOf_first (c : codeunit) (pre r : jsstring) :
  ~ In c pre -> indexOf c (pre ++ c :: r) = Some (length pre).
Proof.
  induction pre as [|x pre IH]; intros H; simpl.
  - rewrite N.eqb_refl. reflexivity.
  - destruct (N.eqb_spec x c) as [->|Hx]; [exfalso; apply H; left; reflexivity|].
    rewrite IH; [reflexivity|]. intros Hin. apply H. right. assumption.
Qed.

Lemma lastIndexOf_last (c : codeunit) (pre post : jsstring) :
  ~ In c post -> lastIndexOf c (pre ++ c :: post) = Some (length pre).
Proof.
  intros H. unfold lastIndexOf.
  replace (rev (pre ++ c :: post)) with (rev post ++ c :: rev pre)
    by (rewrite rev_app_distr; simpl; rewrite <- app_assoc; reflexivity).
  rewrite indexOf_first by (intros Hin; apply in_rev in Hin; contradiction).
  f_equal. rewrite length_app, length_rev. cbn [length]. lia.
Qed.

(** X13. Conversely, whatever stands between the first opening brace and
    the last closing one is the third candidate, braces included. *)
Theorem slicedCandidate_of_braces (pre mid post : jsstring) :
  ~ In 123%N pre -> ~ In 125%N post ->
  slicedCandidate (pre ++ ([123%N] ++ mid ++ [125%N]) ++ post)
  = Some ([123%N] ++ mid ++ [125%N]).
Proof.
  intros H1 H2. unfold slicedCandidate.
  replace (pre ++ ([123%N] ++ mid ++ [125%N]) ++ post)
    with (pre ++ 123%N :: (mid ++ 125%N :: post))
    by (simpl; rewrite <- app_assoc; reflexivity).
  rewrite indexOf_first by assumption.
  replace (pre ++ 123%N :: (mid ++ 125%N :: post))
    with ((pre ++ 123%N :: mid) ++ 125%N :: post)
    by (rewrite <- app_assoc; reflexivity).
  rewrite lastIndexOf_last by assumption.
  replace (length pre <? length (pre ++ 123%N :: mid)) with true
    by (symmetry; apply Nat.ltb_lt; rewrite length_app; cbn [length]; lia).
  f_equal. unfold slice. rewrite <- app_assoc.
  rewrite skipn_app, skipn_all, Nat.sub_diag. cbn [skipn app].
  replace (length (pre ++ 123%N :: mid) + 1 - length pre) with (S (length mid) + 1)
    by (rewrite length_app; cbn [length]; lia).
  clear. induction mid as [|x mid IH]; [reflexivity|].
  cbn [length Nat.add firstn app] in *. injection IH as IH. rewrite IH. reflexivity.
Qed.

Module JSONShape.
Import JSON.
Lemma parseElements_array (f : nat) :
  forall s acc v r, parseElements f s acc = Some (v, r) -> exists l, v = VArray l.
Proof.
  induction f as [|f IH]; intros s acc v r H; [discriminate|]. cbn [parseElements] in H.
  destruct (parseValue f s) as [[v1 r1]|]; [|discriminate].
  destruct (skipWS r1) as [|c r2]; [discriminate|].
  destruct (c =? 44)%N; [eapply IH; eassumption|].
  destruct (c =? 93)%N; [|discriminate]. injection H as <- _. eexists. reflexivity.
Qed.

Lemma parseValue_object (f : nat) (s r : jsstring) (props : list (jsstring * value)) :
  parseValue f s = Some (VObject props, r) -> exists s', s = 123%N :: s'.
Proof.
  destruct f as [|f]; [discriminate|]. cbn [parseValue].
  destruct s as [|c r0]; [discriminate|].
  destruct (N.eqb_spec c 123) as [->|_]; [intros _; eexists; reflexivity|].
  destruct (c =? 91)%N.
  { destruct (skipWS r0) as [|c1 r1]; [discriminate|].
    destruct (c1 =? 93)%N; [discriminate|].
    intros H. apply parseElements_array in H as [l H]. discriminate. }
  destruct (c =? 34)%N.
  { destruct (stringChars r0) as [[t r1]|]; discriminate. }
  destruct (afterPrefix (u "true") (c :: r0)); [discriminate|].
  destruct (afterPrefix (u "false") (c :: r0)); [discriminate|].
  destruct (afterPrefix (u "null") (c :: r0)); [discriminate|].
  destruct (number (c :: r0)) as [[x r1]|]; discriminate.
Qed.

Lemma skipWS_In (s : jsstring) (x : codeunit) : In x (skipWS s) -> In x s.
Proof.
  induction s as [|c r IH]; [auto|]. simpl.
  destruct (isJSONWhiteSpace c); [right; auto | auto].
Qed.

(** A text that parses to an object holds an opening brace. *)
Lemma parse_object_has_brace (s : jsstring) (props : list (jsstring * value)) :
  parse s = Normal (VObject props) -> In 123%N s.
Proof.
  unfold parse, parseWith.
  destruct (parseValue (2 * length s + 2) (skipWS s)) as [[v r]|] eqn:E; [|discriminate].
  destruct (skipWS r); [|discriminate]. intros H. apply Normal_inj in H. subst v.
  apply parseValue_object in E as [s' E]. apply skipWS_In. rewrite E. left. reflexivity.
Qed.
End JSONShape.

Module RegExpUnits.
Import RegExp.

Lemma iterate_from {A} (s : jsstring) (greedy : bool)
  (body : mstate -> (mstate -> option A) -> option A)
  (Hbody : forall st k a, unitsOf s st -> body st k = Some a ->
     exists st', unitsOf s st' /\ k st' = Some a)
  (n : nat) :
  forall st k a, unitsOf s st -> iterate greedy body k n st = Some a ->
    exists st', unitsOf s st' /\ k st' = Some a.
Proof.
  induction n as [|n IH]; intros st k a Hst H; cbn [iterate] in H.
  - exists st. split; [assumption|].
    destruct greedy; [exact H | destruct (k st); [exact H | discriminate]].
  - assert (Hagain : body st (fun st1 => if pos st <? pos st1
                                         then iterate greedy body k n st1 else None) = Some a ->
                     exists st', unitsOf s st' /\ k st' = Some a).
    { intros E. apply Hbody in E as (st1 & H1 & E); [|assumption].
      destruct (pos st <? pos st1); [|discriminate].
      apply IH in E; assumption. }
    destruct greedy.
    + destruct (body st _) as [b|] eqn:E.
      * apply Hagain. rewrite <- H. reflexivity.
      * exists st. split; [assumption | exact H].
    + destruct (k st) as [b|] eqn:E.
      * exists st. split; [assumption|]. rewrite E. exact H.
      * apply Hagain. exact H.
Qed.

Lemma run_from {A} (s : jsstring) (r : regex) :
  forall st (k : mstate -> option A) a, unitsOf s st -> run r st k = Some a ->
    exists st', unitsOf s st' /\ k st' = Some a.
Proof.
  induction r as [p| | | |r1 IH1 r2 IH2|r1 IH1 r2 IH2|g r1 IH1|r1 IH1];
    intros st k a Hst H; cbn [run] in H.
  - destruct (rest st) as [|c s'] eqn:E; [discriminate|].
    destruct (p c); [|discriminate].
    eexists. split; [|exact H]. destruct Hst as [Hr Hc]. split; cbn [rest capture].
    + intros x Hx. apply Hr. rewrite E. right. assumption.
    + exact Hc.
  - destruct (pos st =? 0); [|discriminate]. exists st. auto.
  - destruct (rest st); [|discriminate]. exists st. auto.
  - exists st. auto.
  - apply IH1 in H as (st1 & H1 & H); [|assumption]. apply IH2 in H; assumption.
  - destruct (run r1 st k) as [b|] eqn:E.
    + apply IH1 in E as (st' & H' & E); [|assumption].
      exists st'. split; [assumption|]. rewrite E. exact H.
    + exact (IH2 st k a Hst H).
  - apply (iterate_from g (run r1) IH1) in H; assumption.
  - apply IH1 in H as (st1 & H1 & H); [|assumption].
    eexists. split; [|exact H]. destruct Hst as [Hr Hc]. destruct H1 as [Hr1 Hc1].
    split; cbn [rest capture].
    + exact Hr1.
    + intros cap x E Hx. injection E as <-. apply Hr. eapply In_firstn_list. eassumption.
Qed.

Lemma searchFrom_match (r : regex) (s : jsstring) (more i j : nat) (st : mstate) :
  searchFrom r s i more = Some (j, st) -> matchAt r s j = Some st.
Proof.
  revert i. induction more as [|more IH]; intros i H; cbn [searchFrom] in H.
  - destruct (matchAt r s i) eqn:E; [|discriminate]. injection H as <- <-. assumption.
  - destruct (matchAt r s i) eqn:E.
    + injection H as <- <-. assumption.
    + eapply IH. eassumption.
Qed.

Lemma match1_In (r : regex) (s inner : jsstring) (x : codeunit) :
  match1 r s = Some (Some inner) -> In x inner -> In x s.
Proof.
  unfold match1, exec. destruct (0 <=? length s); [|discriminate].
  destruct (searchFrom r s 0 (length s - 0)) as [[j st]|] eqn:E; [|discriminate].
  intros H Hx. injection H as H. apply searchFrom_match in E. unfold matchAt in E.
  apply (run_from (s := s)) in E as (st' & [_ Hc] & E).
  - injection E as ->. eapply Hc; eassumption.
  - split; cbn [rest capture]; [intros y Hy; eapply In_skipn_list; eassumption | discriminate].
Qed.
End RegExpUnits.

Lemma cleaned_In (raw : jsstring) (x : codeunit) : In x (cleaned raw) -> In x raw.
Proof.
  unfold cleaned, removeAll. intros H. apply filter_In in H as [H _].
  apply trim_In. exact H.
Qed.

Lemma fencedCandidate_In (text c : jsstring) (x : codeunit) :
  fencedCandidate text = Some c -> In x c -> In x text.
Proof.
  unfold fencedCandidate.
  destruct (RegExp.match1 fenceBlock text) as [[inner|]|] eqn:E; try discriminate.
  destruct (isEmpty inner); [discriminate|]. intros H Hx. injection H as <-.
  apply trim_In in Hx. eapply RegExpUnits.match1_In; eassumption.
Qed.

Lemma slicedCandidate_In (text c : jsstring) (x : codeunit) :
  slicedCandidate text = Some c -> In x c -> In x text.
Proof.
  unfold slicedCandidate.
  destruct (indexOf 123%N text); [|discriminate].
  destruct (lastIndexOf 125%N text); [|discriminate].
  destruct (_ <? _); [|discriminate]. intros H Hx. injection H as <-.
  eapply slice_In. eassumption.
Qed.

(** A raw text without an opening brace never gives an object. *)
Lemma extractJsonFlexible_no_brace (raw : jsstring) (props : list (jsstring * value)) :
  ~ In 123%N raw -> extractJsonFlexible raw <> VObject props.
Proof.
  intros Hn H. unfold extractJsonFlexible in H.
  assert (T : forall c, (forall x, In x c -> In x (cleaned raw)) ->
              JSON.parse c <> Normal (VObject props)).
  { intros c Hc E. apply JSONShape.parse_object_has_brace in E.
    apply Hn. apply cleaned_In. apply Hc. exact E. }
  destruct (JSON.parse (cleaned raw)) as [v|e] eqn:E1.
  { subst v. exact (T (cleaned raw) (fun x Hx => Hx) E1). }
  unfold tryParse in H.
  destruct (fencedCandidate (cleaned raw)) as [c|] eqn:Ef.
  - destruct (JSON.parse c) as [v|e2] eqn:E2.
    + subst v. apply (T c); [|exact E2]. intros x Hx. eapply fencedCandidate_In; eassumption.
    + destruct (slicedCandidate (cleaned raw)) as [c3|] eqn:Es; [|discriminate].
      destruct (JSON.parse c3) as [v|e3] eqn:E3; [|discriminate].
      subst v. apply (T c3); [|exact E3]. intros x Hx. eapply slicedCandidate_In; eassumption.
  - destruct (slicedCandidate (cleaned raw)) as [c3|] eqn:Es; [|discriminate].
    destruct (JSON.parse c3) as [v|e3] eqn:E3; [|discriminate].
    subst v. apply (T c3); [|exact E3]. intros x Hx. eapply slicedCandidate_In; eassumption.
Qed.

(** *** The record and its failures *)

Lemma bind_Throw {A B} (c : completion A) (k : A -> completion B) (e : error) :
  bind c k = Throw e ->
  c = Throw e \/ exists a, c = Normal a /\ k a = Throw e.
Proof. destruct c as [a|e']; cbn [bind]; intros H; [right; eauto | left; congruence]. Qed.

Lemma mapM_Throw {A B} (f : A -> completion B) (l : list A) (e : error) :
  mapM f l = Throw e -> exists x, In x l /\ f x = Throw e.
Proof.
  induction l as [|x r IH]; [discriminate|]. cbn [mapM]. intros H.
  apply bind_Throw in H as [H|[a [_ H]]].
  - exists x. split; [left; reflexivity | exact H].
  - apply bind_Throw in H as [H|[b [_ H]]]; [|discriminate].
    destruct (IH H) as [y [Hy Ey]]. exists y. split; [right; exact Hy | exact Ey].
Qed.

Section RecordFacts.
Context {NS : NumberSemantics}.
Variable generateText : jsstring -> jsstring.

Lemma sanitizeTitle_trimmed (v : value) (t : jsstring) :
  sanitizeTitle v = Normal t -> trim t = t.
Proof.
  unfold sanitizeTitle. intros H.
  apply bind_Normal in H as [s [_ H]]. apply Normal_inj in H. subst t.
  destruct (isEmpty (stripTitle s)); [vm_compute; reflexivity|].
  unfold stripTitle. apply trim_idempotent.
Qed.

(** X6. The title of every record has no white space at either end. *)
Theorem title_is_trimmed (text : jsstring) (inputTags : list jsstring) (r : DraftRecord) :
  main generateText text inputTags = Normal r -> trim (title r) = title r.
Proof.
  unfold main. intros H. apply bind_Normal in H as [r0 [H0 H]].
  apply Normal_inj in H. subst r. cbn [title].
  destruct (extract_title _ _ H0) as [v Hv]. exact (sanitizeTitle_trimmed _ Hv).
Qed.

Lemma restOfText_cases (text : jsstring) :
  (trim (restOfText text) = restOfText text /\ isEmpty (restOfText text) = false)
  \/ restOfText text = text.
Proof.
  unfold restOfText.
  destruct (isEmpty (trim (join [LF] (tl (RegExp.split lineBreak text))))) eqn:E.
  - right. reflexivity.
  - left. split; [apply trim_idempotent | exact E].
Qed.

(** X7. The body of a record is trimmed and not empty, or it is the whole
    raw text; so it is empty only when the raw text is. *)
Theorem body_is_trimmed_or_the_raw_text (text : jsstring) (r : DraftRecord) :
  extract generateText text = Normal r ->
  ((trim (draftBody r) = draftBody r /\ isEmpty (draftBody r) = false)
   \/ draftBody r = text)
  /\ (draftBody r = [] -> text = []).
Proof.
  intros H.
  assert (G : (trim (draftBody r) = draftBody r /\ isEmpty (draftBody r) = false)
              \/ draftBody r = text).
  { assert (Hraw : fromRawText text = Normal r ->
                   (trim (draftBody r) = draftBody r /\ isEmpty (draftBody r) = false)
                   \/ draftBody r = text).
    { intros Hr. destruct (fromRawText_normal text) as [t [E _]]. rewrite E in Hr.
      apply Normal_inj in Hr. subst r. cbn [draftBody]. apply restOfText_cases. }
    destruct (parsedOf generateText text) as [| | | | | |props] eqn:Hp;
      try (rewrite extract_no_object in H by (rewrite Hp; discriminate); auto).
    rewrite (extract_object _ _ Hp) in H.
    apply bind_Normal in H as [r0 [E H]].
    destruct (isEmpty (draftBody r0)) eqn:Eb; [auto|].
    apply Normal_inj in H. subst r0. left. split; [|exact Eb].
    destruct (fromParsed_Normal _ E) as (tv & bv & gv & s & _ & _ & _ & _ & Hb & _).
    rewrite Hb. apply trim_idempotent. }
  split; [exact G|]. intros E. destruct G as [[_ G] | G].
  - rewrite E in G. discriminate.
  - rewrite <- G. exact E.
Qed.

Lemma StringOrEmpty_falsy (v : value) : ToBoolean v = false -> StringOrEmpty v = Normal [].
Proof. intros H. unfold StringOrEmpty. rewrite H. reflexivity. Qed.

(** X8. An object whose title is missing or falsy gets the placeholder
    title and keeps its body and its tags: the record is not derived from
    the raw text. *)
Theorem missing_title_gives_placeholder
  (text : jsstring) (props : list (jsstring * value)) (b : jsstring) (r : DraftRecord) :
  parsedOf generateText text = VObject props ->
  ToBoolean (member (u "title") props) = false ->
  StringOrEmpty (member (u "draftBody") props) = Normal b ->
  isEmpty (trim b) = false ->
  extract generateText text = Normal r ->
  title r = placeholderTitle /\ draftBody r = trim b /\
  fromParsed (VObject props) = Normal r.
Proof.
  intros Hp Ht Hb Hne H. rewrite (extract_object _ _ Hp) in H.
  apply bind_Normal in H as [r0 [E H]].
  destruct (fromParsed_Normal _ E) as (tv & bv & gv & s & Htv & Hs & Hbv & Hbs & Hd & _).
  cbn [Get] in Htv, Hbv. apply Normal_inj in Htv. apply Normal_inj in Hbv. subst tv bv.
  rewrite Hb in Hbs. apply Normal_inj in Hbs. subst s.
  rewrite Hd, Hne in H. apply Normal_inj in H. subst r0.
  split; [|split; [assumption | assumption]].
  unfold sanitizeTitle in Hs. rewrite (StringOrEmpty_falsy _ Ht) in Hs. cbn [bind] in Hs.
  apply Normal_inj in Hs. rewrite <- Hs. vm_compute. reflexivity.
Qed.

(** X9. When [extractJsonFlexible] gives a truthy value for the first
    answer, the record does not depend on what a repair request would
    answer. *)
Theorem repair_is_not_consulted (other : jsstring -> jsstring)
  (text : jsstring) (inputTags : list jsstring) :
  ToBoolean (extractJsonFlexible text) = true ->
  main generateText text inputTags = main other text inputTags.
Proof.
  intros H. unfold main, extract, parsedOf. rewrite H. reflexivity.
Qed.


Lemma repairJson_no_brace (raw : jsstring) (props : list (jsstring * value)) :
  ~ In 123%N (generateText raw) -> repairJson generateText raw <> VObject props.
Proof.
  intros Hn. unfold repairJson.
  destruct (JSON.parse (generateText raw)) as [v|e] eqn:E.
  - intros ->. apply Hn. eapply JSONShape.parse_object_has_brace; eassumption.
  - apply extractJsonFlexible_no_brace; assumption.
Qed.

Lemma mergeTags_nil (inputTags : list jsstring) : mergeTags [] inputTags = Set_of inputTags.
Proof. destruct inputTags; reflexivity. Qed.

(** X14. When neither the answer nor the answer to the repair request
    holds an opening brace, the record is derived from the raw text and
    its tags are the supplied ones, each once. *)
Theorem answers_without_a_brace (text : jsstring) (inputTags : list jsstring) :
  ~ In 123%N text -> ~ In 123%N (generateText text) ->
  main generateText text inputTags
  = (r <- fromRawText text ;;
     Normal {| title := title r; draftBody := draftBody r; tags := Set_of inputTags |}).
Proof.
  intros Ht Hg. unfold main.
  rewrite extract_no_object.
  - unfold fromRawText.
    destruct (deriveTitleFromText text) as [t|e]; cbn [bind]; [|reflexivity].
    cbn [tags title draftBody]. rewrite mergeTags_nil. reflexivity.
  - intros props. unfold parsedOf.
    destruct (ToBoolean (extractJsonFlexible text)).
    + apply extractJsonFlexible_no_brace; assumption.
    + apply repairJson_no_brace; assumption.
Qed.


Lemma ToString_Throw (v : value) (e : error) : ToString v = Throw e -> e = TypeError.
Proof.
  revert v. fix F 1. intros [ | |[|]|x|s|l|props]; try discriminate.
  - cbn [ToString]. induction l as [|a r IH]; [discriminate|].
    destruct r as [|a' r'].
    + intros H. apply (F a). destruct a; try discriminate; exact H.
    + match goal with
      | |- joinElements ?el _ = _ -> _ =>
          change (joinElements el (a :: a' :: r'))
            with (x <- el a ;; y <- joinElements el (a' :: r') ;; Normal (x ++ u "," ++ y))
      end.
      intros H. apply bind_Throw in H as [H|[x [_ H]]].
      * apply (F a). destruct a; try discriminate; exact H.
      * apply bind_Throw in H as [H|[y [_ H]]]; [exact (IH H) | discriminate].
  - clear F. cbn [ToString]. destruct (ownProperty (u "toString") props); [|discriminate].
    intros H. injection H; intros; subst; reflexivity.
Qed.

Lemma StringOrEmpty_Throw (v : value) (e : error) : StringOrEmpty v = Throw e -> e = TypeError.
Proof.
  unfold StringOrEmpty. destruct (ToBoolean v); [apply ToString_Throw | discriminate].
Qed.

Lemma Get_Throw (v : value) (key : jsstring) (e : error) : Get v key = Throw e -> e = TypeError.
Proof. destruct v; cbn [Get]; intros H; try discriminate; injection H; intros; subst; reflexivity. Qed.

Lemma sanitizeTitle_Throw (v : value) (e : error) : sanitizeTitle v = Throw e -> e = TypeError.
Proof.
  unfold sanitizeTitle. intros H. apply bind_Throw in H as [H|[a [_ H]]]; [|discriminate].
  eapply StringOrEmpty_Throw; eassumption.
Qed.

Lemma fromParsed_Throw (parsed : value) (e : error) : fromParsed parsed = Throw e -> e = TypeError.
Proof.
  unfold fromParsed. intros H.
  apply bind_Throw in H as [H|[t [_ H]]].
  { apply bind_Throw in H as [H|[v [_ H]]];
      [eapply Get_Throw | eapply sanitizeTitle_Throw]; eassumption. }
  apply bind_Throw in H as [H|[b [_ H]]].
  { apply bind_Throw in H as [H|[v [_ H]]]; [eapply Get_Throw; eassumption|].
    apply bind_Throw in H as [H|[s [_ H]]]; [|discriminate].
    eapply StringOrEmpty_Throw; eassumption. }
  apply bind_Throw in H as [H|[g [_ H]]]; [|discriminate].
  apply bind_Throw in H as [H|[v [_ H]]]; [eapply Get_Throw; eassumption|].
  destruct v; try discriminate.
  apply mapM_Throw in H as [x [_ H]]. eapply ToString_Throw; eassumption.
Qed.

Lemma ToString_Throw_structured (v : value) (e : error) :
  ToString v = Throw e -> isStructured v = true.
Proof. destruct v as [ | |[|]|x|s|l|props]; intros H; try discriminate; reflexivity. Qed.

Lemma StringOrEmpty_Throw_structured (v : value) (e : error) :
  StringOrEmpty v = Throw e -> isStructured v = true.
Proof.
  unfold StringOrEmpty. destruct (ToBoolean v); [apply ToString_Throw_structured | discriminate].
Qed.

(** The conversion that fails under [if (parsed)] is that of an array or an
    object. *)
Lemma fromParsed_Throw_structured (props : list (jsstring * value)) (e : error) :
  fromParsed (VObject props) = Throw e ->
  isStructured (member (u "title") props) = true \/
  isStructured (member (u "draftBody") props) = true \/
  exists elements,
    member (u "tags") props = VArray elements /\ existsb isStructured elements = true.
Proof.
  unfold fromParsed. cbn [Get]. intros H.
  apply bind_Throw in H as [H|[t [_ H]]].
  { left. cbn [bind] in H. unfold sanitizeTitle in H.
    apply bind_Throw in H as [H|[a [_ H]]]; [|discriminate].
    eapply StringOrEmpty_Throw_structured; eassumption. }
  apply bind_Throw in H as [H|[b [_ H]]].
  { right. left. cbn [bind] in H.
    apply bind_Throw in H as [H|[a [_ H]]]; [|discriminate].
    eapply StringOrEmpty_Throw_structured; eassumption. }
  apply bind_Throw in H as [H|[g [_ H]]]; [|discriminate].
  right. right. cbn [bind] in H.
  destruct (member (u "tags") props) as [| | | | |elements|] eqn:Eg; try discriminate.
  exists elements. split; [reflexivity|].
  apply mapM_Throw in H as [x [Hx H]].
  apply existsb_exists. exists x. split; [exact Hx|].
  eapply ToString_Throw_structured; eassumption.
Qed.

(** X15. When [main] fails on the answers it is given, the value obtained
    is an object and what failed is the conversion of an array or an
    object: its [title] or its [draftBody] is one, or its [tags] are an
    array that holds one. The failure is no [SyntaxError]: none of
    [JSON.parse] reaches the caller. *)
Theorem only_a_conversion_fails (text : jsstring) (inputTags : list jsstring) (e : error) :
  main generateText text inputTags = Throw e ->
  e <> SyntaxError /\
  exists props, parsedOf generateText text = VObject props /\
    (isStructured (member (u "title") props) = true \/
     isStructured (member (u "draftBody") props) = true \/
     exists elements,
       member (u "tags") props = VArray elements /\
       existsb isStructured elements = true).
Proof.
  intros H. unfold main in H.
  apply bind_Throw in H as [H|[r [_ H]]]; [|discriminate].
  assert (Hraw : forall e', fromRawText text <> Throw e').
  { intros e' E. destruct (fromRawText_normal text) as [t [Hr _]]. congruence. }
  destruct (parsedOf generateText text) as [| | | | | |props] eqn:Hp;
    try (exfalso; rewrite extract_no_object in H;
         [eapply Hraw; eassumption | intros props; rewrite Hp; discriminate]).
  rewrite (extract_object _ _ Hp) in H.
  apply bind_Throw in H as [H|[r [_ H]]].
  - split.
    + apply fromParsed_Throw in H. rewrite H. discriminate.
    + exists props. split; [reflexivity|]. eapply fromParsed_Throw_structured; eassumption.
  - exfalso. destruct (isEmpty (draftBody r)); [eapply Hraw; eassumption | discriminate].
Qed.

End RecordFacts.

(** *** The file written *)

Module StringifyFacts.
Import JSON Stringify.

Lemma hexDigit_hexChar (d : N) : (d < 16)%N -> hexDigit (hexChar d) = Some d.
Proof.
  intros H. rewrite <- (N2Nat.id d).
  assert (Hn : N.to_nat d < 16) by lia.
  generalize dependent (N.to_nat d). clear H. intros n Hn.
  do 16 (destruct n as [|n]; [vm_compute; reflexivity|]). lia.
Qed.

Lemma hex4_unicodeEscape (c : codeunit) :
  (c < 65536)%N ->
  exists h3 h2 h1 h0, unicodeEscape c = [92; 117; h3; h2; h1; h0]%N /\ hex4 h3 h2 h1 h0 = Some c.
Proof.
  intros H. unfold unicodeEscape. do 4 eexists. split; [reflexivity|].
  unfold hex4. rewrite !hexDigit_hexChar by (apply N.mod_lt; discriminate).
  f_equal.
  pose proof (N.div_mod c 16). pose proof (N.div_mod (c / 16) 16).
  pose proof (N.div_mod (c / 256) 16).
  assert (c / 4096 < 16)%N by (apply N.Div0.div_lt_upper_bound; exact H).
  rewrite (N.mod_small (c / 4096) 16) by assumption.
  replace (c / 256)%N with (c / 16 / 16)%N in * by (rewrite N.Div0.div_div; reflexivity).
  replace (c / 4096)%N with (c / 16 / 16 / 16)%N in * by (rewrite !N.Div0.div_div; reflexivity).
  lia.
Qed.

Lemma stringChars_unit (c : codeunit) (x : jsstring) :
  c <> 34%N -> c <> 92%N -> (32 <= c)%N ->
  stringChars (c :: x) = consTo c (stringChars x).
Proof.
  intros H1 H2 H3. cbn [stringChars].
  apply N.eqb_neq in H1. apply N.eqb_neq in H2. rewrite H1, H2.
  replace (c <? 32)%N with false by (symmetry; apply N.ltb_ge; assumption).
  unfold consTo. destruct (stringChars x) as [[t r]|]; reflexivity.
Qed.

Lemma stringChars_escape (c : codeunit) (x : jsstring) :
  (c < 65536)%N -> stringChars (unicodeEscape c ++ x) = consTo c (stringChars x).
Proof.
  intros H. destruct (hex4_unicodeEscape H) as (h3 & h2 & h1 & h0 & E & Hh).
  rewrite E. cbn [app stringChars]. 
  replace (92 =? 34)%N with false by reflexivity.
  replace (92 =? 92)%N with true by reflexivity.
  replace (117 =? 117)%N with true by reflexivity.
  rewrite Hh. unfold consTo. destruct (stringChars x) as [[t r]|]; reflexivity.
Qed.

Lemma stringChars_quoteUnit (c : codeunit) (x : jsstring) :
  isLeadingSurrogate c = false -> isTrailingSurrogate c = false ->
  stringChars (quoteUnit c ++ x) = consTo c (stringChars x).
Proof.
  intros _ _. unfold quoteUnit.
  destruct (N.eqb_spec c 8) as [->|N8]; [reflexivity|].
  destruct (N.eqb_spec c 9) as [->|N9]; [reflexivity|].
  destruct (N.eqb_spec c 10) as [->|N10]; [reflexivity|].
  destruct (N.eqb_spec c 12) as [->|N12]; [reflexivity|].
  destruct (N.eqb_spec c 13) as [->|N13]; [reflexivity|].
  destruct (N.eqb_spec c 34) as [->|N34]; [reflexivity|].
  destruct (N.eqb_spec c 92) as [->|N92]; [reflexivity|].
  destruct (N.ltb_spec c 32) as [L|L].
  - apply stringChars_escape. lia.
  - apply stringChars_unit; assumption.
Qed.

Lemma surrogate_bounds (c : codeunit) :
  isLeadingSurrogate c = true \/ isTrailingSurrogate c = true ->
  c <> 34%N /\ c <> 92%N /\ (32 <= c)%N /\ (c < 65536)%N.
Proof.
  unfold isLeadingSurrogate, isTrailingSurrogate.
  intros [H | H]; apply andb_prop in H as [H1 H2];
    apply N.leb_le in H1; apply N.leb_le in H2; lia.
Qed.

(** What [QuoteJSONString] writes, [JSON.parse] reads back. *)
Lemma stringChars_quoteChars (n : nat) :
  forall s rest, length s <= n ->
    stringChars (quoteChars s ++ 34%N :: rest) = Some (s, rest).
Proof.
  induction n as [|n IH]; intros s rest Hn.
  - destruct s; [reflexivity | simpl in Hn; lia].
  - destruct s as [|c r]; [reflexivity|]. cbn [length] in Hn. cbn [quoteChars].
    destruct (isLeadingSurrogate c) eqn:Lc.
    + destruct (@surrogate_bounds c (or_introl Lc)) as (A1 & A2 & A3 & A4).
      destruct r as [|d r'].
      * rewrite stringChars_escape by assumption. reflexivity.
      * destruct (isTrailingSurrogate d) eqn:Td.
        -- destruct (@surrogate_bounds d (or_intror Td)) as (B1 & B2 & B3 & B4).
           cbn [app]. rewrite stringChars_unit by assumption.
           rewrite stringChars_unit by assumption.
           rewrite IH by (cbn [length] in Hn; lia). reflexivity.
        -- rewrite <- app_assoc. rewrite stringChars_escape by assumption.
           rewrite IH by lia. reflexivity.
    + destruct (isTrailingSurrogate c) eqn:Tc.
      * destruct (@surrogate_bounds c (or_intror Tc)) as (A1 & A2 & A3 & A4).
        rewrite <- app_assoc. rewrite stringChars_escape by assumption.
        rewrite IH by lia. reflexivity.
      * rewrite <- app_assoc. rewrite stringChars_quoteUnit by assumption.
        rewrite IH by lia. reflexivity.
Qed.

Lemma parseValue_quote (f : nat) (s rest : jsstring) :
  parseValue (S f) (quote s ++ rest) = Some (VString s, rest).
Proof.
  unfold quote. cbn [app parseValue].
  replace (34 =? 123)%N with false by reflexivity.
  replace (34 =? 91)%N with false by reflexivity.
  replace (34 =? 34)%N with true by reflexivity.
  rewrite <- app_assoc. cbn [app].
  rewrite (@stringChars_quoteChars (length s)) by lia. reflexivity.
Qed.

Lemma skipWS_quote (s rest : jsstring) : skipWS (quote s ++ rest) = quote s ++ rest.
Proof. reflexivity. Qed.

Lemma join_cons2 (sep x y : jsstring) (l : list jsstring) :
  join sep (x :: y :: l) = x ++ sep ++ join sep (y :: l).
Proof. reflexivity. Qed.

Lemma join_quote_head (sep t : jsstring) (items : list jsstring) (rest : jsstring) :
  exists tail, join sep (map quote (t :: items)) ++ rest = quote t ++ tail.
Proof.
  destruct items as [|t' items]; cbn [map].
  - exists rest. reflexivity.
  - rewrite join_cons2. eexists. rewrite <- app_assoc. reflexivity.
Qed.

Lemma after_element_more (f : nat) (t : jsstring) (x : jsstring) (acc : list value) :
  parseElements (S (S f)) (quote t ++ sep4 ++ x) acc
  = parseElements (S f) (skipWS x) (VString t :: acc).
Proof.
  cbn [parseElements]. rewrite parseValue_quote. reflexivity.
Qed.

Lemma after_element_last (f : nat) (t : jsstring) (rest : jsstring) (acc : list value) :
  parseElements (S (S f)) (quote t ++ [LF] ++ u "  " ++ u "]" ++ rest) acc
  = Some (VArray (rev acc ++ [VString t]), rest).
Proof.
  cbn [parseElements]. rewrite parseValue_quote. reflexivity.
Qed.

Lemma parseElements_strings (items : list jsstring) :
  forall t acc rest f, length items < f ->
    parseElements (S f)
      (join sep4 (map quote (t :: items)) ++ [LF] ++ u "  " ++ u "]" ++ rest) acc
    = Some (VArray (rev acc ++ map VString (t :: items)), rest).
Proof.
  induction items as [|t' items IH]; intros t acc rest f Hf;
    (destruct f as [|f]; [cbn [length] in Hf; lia|]).
  - cbn [map join]. apply after_element_last.
  - change (map quote (t :: t' :: items)) with (quote t :: quote t' :: map quote items).
    rewrite join_cons2. rewrite <- !app_assoc.
    rewrite after_element_more.
    change (quote t' :: map quote items) with (map quote (t' :: items)).
    destruct (join_quote_head sep4 t' items ([LF] ++ u "  " ++ u "]" ++ rest)) as [tail E].
    rewrite E. rewrite skipWS_quote. rewrite <- E.
    rewrite IH by (cbn [length] in Hf; lia).
    cbn [map rev]. rewrite <- app_assoc. reflexivity.
Qed.

Lemma parseValue_strings (f : nat) (items : list jsstring) (rest : jsstring) :
  length items + 2 <= f ->
  parseValue f (strings (u "    ") (u "  ") items ++ rest)
  = Some (VArray (map VString items), rest).
Proof.
  intros Hf. destruct f as [|f]; [lia|].
  destruct items as [|t items].
  - reflexivity.
  - destruct f as [|f]; [cbn [length] in Hf; lia|].
    unfold strings. rewrite <- !app_assoc.
    change (u "," ++ [LF] ++ u "    ") with sep4.
    destruct (join_quote_head sep4 t items ([LF] ++ u "  " ++ u "]" ++ rest)) as [tail E].
    change (parseValue (S (S f))
              (u "[" ++ [LF] ++ u "    " ++
               join sep4 (map quote (t :: items)) ++ [LF] ++ u "  " ++ u "]" ++ rest))
      with (match skipWS (join sep4 (map quote (t :: items)) ++
                          [LF] ++ u "  " ++ u "]" ++ rest) with
            | c1 :: r1 => if (c1 =? 93)%N then Some (VArray [], r1)
                          else parseElements (S f) (c1 :: r1) []
            | [] => None
            end).
    rewrite E. rewrite skipWS_quote.
    change (match quote t ++ tail with
            | c1 :: r1 => if (c1 =? 93)%N then Some (VArray [], r1)
                          else parseElements (S f) (c1 :: r1) []
            | [] => None
            end)
      with (parseElements (S f) (quote t ++ tail) []).
    rewrite <- E.
    rewrite parseElements_strings by (cbn [length] in Hf; lia). reflexivity.
Qed.

Lemma member_more (f : nat) (key x y : jsstring) (v : value)
    (acc : list (jsstring * value)) :
  parseValue f x = Some (v, [44; 10; 32; 32]%N ++ y) ->
  skipWS x = x ->
  parseMembers (S f) (quote key ++ [58; 32]%N ++ x) acc
  = parseMembers f (skipWS y) ((key, v) :: acc).
Proof.
  intros Hv Hx. unfold quote. rewrite <- !app_assoc. cbn [app parseMembers].
  replace (34 =? 34)%N with true by reflexivity.
  rewrite (@stringChars_quoteChars (length key)) by lia.
  change (skipWS (58%N :: 32%N :: x)) with (58%N :: 32%N :: x).
  cbv beta iota.
  replace (58 =? 58)%N with true by reflexivity.
  cbv beta iota.
  change (skipWS (32%N :: x)) with (skipWS x). rewrite Hx, Hv.
  reflexivity.
Qed.

Lemma member_last (f : nat) (key x rest : jsstring) (v : value)
    (acc : list (jsstring * value)) :
  parseValue f x = Some (v, [10; 125]%N ++ rest) ->
  skipWS x = x ->
  parseMembers (S f) (quote key ++ [58; 32]%N ++ x) acc
  = Some (VObject (rev acc ++ [(key, v)]), rest).
Proof.
  intros Hv Hx. unfold quote. rewrite <- !app_assoc. cbn [app parseMembers].
  replace (34 =? 34)%N with true by reflexivity.
  rewrite (@stringChars_quoteChars (length key)) by lia.
  change (skipWS (58%N :: 32%N :: x)) with (58%N :: 32%N :: x).
  cbv beta iota.
  replace (58 =? 58)%N with true by reflexivity.
  cbv beta iota.
  change (skipWS (32%N :: x)) with (skipWS x). rewrite Hx, Hv.
  reflexivity.
Qed.

Lemma skipWS_strings (items : list jsstring) (rest : jsstring) :
  skipWS (strings (u "    ") (u "  ") items ++ rest)
  = strings (u "    ") (u "  ") items ++ rest.
Proof. destruct items; reflexivity. Qed.

Lemma draft_layout (r : DraftRecord) :
  draft r =
  [123; 10; 32; 32]%N ++
  quote (u "title") ++ [58; 32]%N ++ quote (title r) ++ [44; 10; 32; 32]%N ++
  quote (u "draftBody") ++ [58; 32]%N ++ quote (draftBody r) ++ [44; 10; 32; 32]%N ++
  quote (u "tags") ++ [58; 32]%N ++
  strings (u "    ") (u "  ") (tags r) ++ [10; 125]%N ++ [].
Proof.
  unfold draft. cbn [join]. rewrite <- !app_assoc. reflexivity.
Qed.

Lemma parseValue_draft (f : nat) (r : DraftRecord) :
  length (tags r) + 6 <= f ->
  parseValue f (draft r)
  = Some (VObject [(u "title", VString (title r));
                   (u "draftBody", VString (draftBody r));
                   (u "tags", VArray (map VString (tags r)))], []).
Proof.
  intros Hf. rewrite draft_layout.
  do 4 (destruct f as [|f]; [lia|]).
  change (parseValue (S (S (S (S f)))) ([123; 10; 32; 32]%N ++ ?x))
    with (match skipWS x with
          | c1 :: r1 => if (c1 =? 125)%N then Some (VObject [], r1)
                        else parseMembers (S (S (S f))) (c1 :: r1) []
          | [] => None
          end).
  rewrite skipWS_quote.
  match goal with
  | |- match quote ?k ++ ?x with _ => _ end = _ =>
      change (parseMembers (S (S (S f))) (quote k ++ x) [] =
              Some (VObject [(u "title", VString (title r));
                             (u "draftBody", VString (draftBody r));
                             (u "tags", VArray (map VString (tags r)))], []))
  end.
  destruct f as [|f]; [lia|].
  rewrite (@member_more (S (S (S f))) (u "title") _ _ (VString (title r)) []
             (parseValue_quote _ _ _) (skipWS_quote _ _)).
  rewrite skipWS_quote.
  rewrite (@member_more (S (S f)) (u "draftBody") _ _ (VString (draftBody r)) _
             (parseValue_quote _ _ _) (skipWS_quote _ _)).
  rewrite skipWS_quote.
  rewrite (@member_last (S f) (u "tags") _ [] (VArray (map VString (tags r))) _).
  - reflexivity.
  - apply parseValue_strings. lia.
  - apply skipWS_strings.
Qed.

Lemma length_join_quote (sep : jsstring) (items : list jsstring) :
  length items <= length (join sep (map quote items)).
Proof.
  induction items as [|t items IH]; [cbn; lia|].
  destruct items as [|t' items].
  - cbn [map join length]. unfold quote. rewrite !length_app. cbn [length]. lia.
  - change (map quote (t :: t' :: items)) with (quote t :: quote t' :: map quote items).
    rewrite join_cons2. rewrite !length_app.
    change (quote t' :: map quote items) with (map quote (t' :: items)).
    unfold quote at 1. rewrite !length_app. cbn [length] in *. lia.
Qed.

Lemma length_strings (i b : jsstring) (items : list jsstring) :
  length items <= length (strings i b items).
Proof.
  destruct items as [|t items]; [cbn; lia|].
  unfold strings. rewrite !length_app.
  pose proof (length_join_quote (u "," ++ [LF] ++ i) (t :: items)). lia.
Qed.

(** The fuel [JSON.parse] takes is enough for the text written. *)
Lemma fuel_for_draft (r : DraftRecord) :
  length (tags r) + 6 <= 2 * length (draft r) + 2.
Proof.
  rewrite draft_layout. rewrite !length_app.
  pose proof (length_strings (u "    ") (u "  ") (tags r)).
  cbn [length]. lia.
Qed.

End StringifyFacts.

(** X16. The text written to [draft.json] is JSON that parses back to the
    record: an object with the members [title], [draftBody] and [tags], in
    this order, holding the title, the body and the tags as they are. *)
Theorem written_file_parses_back (r : DraftRecord) :
  JSON.parse (Stringify.draft r)
  = Normal (VObject [(u "title", VString (title r));
                     (u "draftBody", VString (draftBody r));
                     (u "tags", VArray (map VString (tags r)))]).
Proof.
  unfold JSON.parse, JSON.parseWith.
  assert (E : JSON.skipWS (Stringify.draft r) = Stringify.draft r) by reflexivity.
  rewrite E. rewrite StringifyFacts.parseValue_draft; [reflexivity|].
  apply StringifyFacts.fuel_for_draft.
Qed.

(** *** The file written, read as an answer *)

Module StringifyUnits.
Import JSON Stringify.

Lemma hexChar_ascii (d : N) : (d < 16)%N -> (hexChar d < 128)%N.
Proof. intros H. unfold hexChar. destruct (d <? 10)%N; lia. Qed.

Lemma unicodeEscape_ascii (c x : codeunit) : In x (unicodeEscape c) -> (x < 128)%N.
Proof.
  unfold unicodeEscape. intros H.
  repeat (destruct H as [<- | H]; [first [lia | apply hexChar_ascii; apply N.mod_lt; lia]|]).
  destruct H.
Qed.

Lemma quoteUnit_units (c x : codeunit) : In x (quoteUnit c) -> x = c \/ (x < 128)%N.
Proof.
  unfold quoteUnit.
  repeat match goal with
  | |- In _ (if ?b then _ else _) -> _ => destruct b
  | |- In _ (match ?c with _ => _ end) -> _ => destruct c
  end; try (intros H; right; revert H; apply unicodeEscape_ascii);
  try (intros [<- | []]; left; reflexivity);
  intros H; right; repeat (destruct H as [<- | H]; [lia|]); destruct H.
Qed.

Lemma quoteChars_units (n : nat) :
  forall s x, length s <= n -> In x (quoteChars s) -> In x s \/ (x < 128)%N.
Proof.
  induction n as [|n IH]; intros s x Hn.
  - destruct s; [intros [] | simpl in Hn; lia].
  - destruct s as [|c r]; [intros []|]. cbn [length] in Hn. cbn [quoteChars].
    assert (Hr : In x (quoteChars r) -> In x (c :: r) \/ (x < 128)%N).
    { intros H. apply IH in H; [|lia]. destruct H; [left; right; assumption | right; assumption]. }
    assert (He : In x (unicodeEscape c) -> In x (c :: r) \/ (x < 128)%N).
    { intros H. right. eapply unicodeEscape_ascii; eassumption. }
    destruct (isLeadingSurrogate c).
    + destruct r as [|d r']; [exact He|].
      destruct (isTrailingSurrogate d).
      * intros [<- | [<- | H]]; [left; left; reflexivity | left; right; left; reflexivity |].
        apply IH in H; [|cbn [length] in Hn; lia].
        destruct H; [left; right; right; assumption | right; assumption].
      * intros H. apply in_app_or in H as [H|H]; auto.
    + destruct (isTrailingSurrogate c).
      * intros H. apply in_app_or in H as [H|H]; auto.
      * intros H. apply in_app_or in H as [H|H]; auto.
        apply quoteUnit_units in H as [-> | H]; [left; left; reflexivity | right; assumption].
Qed.

Lemma quote_units (s : jsstring) (x : codeunit) :
  In x (quote s) -> In x s \/ (x < 128)%N.
Proof.
  unfold quote. intros H. apply in_app_or in H as [[<- | []] | H]; [right; lia|].
  apply in_app_or in H as [H | [<- | []]]; [|right; lia].
  eapply quoteChars_units; [apply Nat.le_refl | exact H].
Qed.

Ltac below128 H :=
  cbn in H; repeat (destruct H as [<- | H]; [first [lia | reflexivity]|]); destruct H.

Lemma join_units (sep : jsstring) (items : list jsstring) (x : codeunit) :
  In x (join sep items) -> In x sep \/ exists t, In t items /\ In x t.
Proof.
  induction items as [|t items IH]; [intros []|].
  destruct items as [|t' items'].
  - cbn [join]. intros H. right. exists t. split; [left; reflexivity | exact H].
  - rewrite StringifyFacts.join_cons2. intros H.
    apply in_app_or in H as [H|H]; [right; exists t; split; [left; reflexivity | exact H]|].
    apply in_app_or in H as [H|H]; [left; exact H|].
    apply IH in H as [H | (t0 & Ht & H)]; [left; exact H|].
    right. exists t0. split; [right; exact Ht | exact H].
Qed.

Lemma strings_units (items : list jsstring) (x : codeunit) :
  In x (strings (u "    ") (u "  ") items) ->
  (x < 128)%N \/ exists t, In t items /\ In x t.
Proof.
  destruct items as [|t items].
  - intros H. left. below128 H.
  - unfold strings. intros H.
    apply in_app_or in H as [H|H]; [left; below128 H|].
    apply in_app_or in H as [H|H]; [left; below128 H|].
    apply in_app_or in H as [H|H]; [left; below128 H|].
    apply in_app_or in H as [H|H]; [|left; below128 H].
    apply join_units in H as [H | (q & Hq & H)]; [left; below128 H|].
    apply in_map_iff in Hq as (t0 & <- & Ht0).
    apply quote_units in H as [H|H]; [right; exists t0; auto | left; exact H].
Qed.

(** The code units of the text written: those of the title, the body and
    the tags, and code units below 128. *)
Lemma draft_units (r : DraftRecord) (x : codeunit) :
  In x (draft r) ->
  (x < 128)%N \/ In x (title r) \/ In x (draftBody r) \/ exists t, In t (tags r) /\ In x t.
Proof.
  rewrite StringifyFacts.draft_layout. intros H.
  apply in_app_or in H as [H|H]; [left; below128 H|].
  apply in_app_or in H as [H|H];
    [apply quote_units in H as [H|H]; left; [below128 H | exact H]|].
  apply in_app_or in H as [H|H]; [left; below128 H|].
  apply in_app_or in H as [H|H]; [apply quote_units in H as [H|H]; auto|].
  apply in_app_or in H as [H|H]; [left; below128 H|].
  apply in_app_or in H as [H|H];
    [apply quote_units in H as [H|H]; left; [below128 H | exact H]|].
  apply in_app_or in H as [H|H]; [left; below128 H|].
  apply in_app_or in H as [H|H]; [apply quote_units in H as [H|H]; auto|].
  apply in_app_or in H as [H|H]; [left; below128 H|].
  apply in_app_or in H as [H|H];
    [apply quote_units in H as [H|H]; left; [below128 H | exact H]|].
  apply in_app_or in H as [H|H]; [left; below128 H|].
  apply in_app_or in H as [H|H]; [apply strings_units in H as [H|H]; auto|].
  left. below128 H.
Qed.

End StringifyUnits.

Lemma removeAll_not_In (c : codeunit) (s : jsstring) : ~ In c s -> removeAll c s = s.
Proof.
  unfold removeAll. induction s as [|x r IH]; intros H; [reflexivity|]. simpl.
  destruct (N.eqb_spec x c) as [->|Hx]; [exfalso; apply H; left; reflexivity|].
  simpl. rewrite IH; [reflexivity|]. intros Hin. apply H. right. assumption.
Qed.

Lemma draft_enclosed (r : DraftRecord) :
  exists body, Stringify.draft r = 123%N :: body ++ [125%N].
Proof.
  rewrite StringifyFacts.draft_layout.
  match goal with
  | |- exists body, [123; 10; 32; 32]%N ++ ?a ++ ?b ++ ?c ++ ?d ++ ?e ++ ?f ++ ?g ++ ?h ++ ?i ++ ?j ++ ?k
                    ++ [10; 125]%N ++ [] = _ =>
      exists ([10; 32; 32]%N ++ a ++ b ++ c ++ d ++ e ++ f ++ g ++ h ++ i ++ j ++ k ++ [10%N])
  end.
  rewrite <- !app_assoc. reflexivity.
Qed.

(** The text written is left as it is by the cleaning of
    [extractJsonFlexible] when the record holds no U+200B. *)
Lemma cleaned_draft (r : DraftRecord) :
  ~ In ZWSP (title r) -> ~ In ZWSP (draftBody r) ->
  (forall t, In t (tags r) -> ~ In ZWSP t) ->
  cleaned (Stringify.draft r) = Stringify.draft r.
Proof.
  intros Ht Hb Hg. destruct (draft_enclosed r) as [body E].
  assert (Hz : ~ In ZWSP (Stringify.draft r)).
  { intros H. apply StringifyUnits.draft_units in H as [H | [H | [H | (t & Hin & H)]]].
    - vm_compute in H. discriminate.
    - contradiction.
    - contradiction.
    - exact (Hg t Hin H). }
  rewrite <- (app_nil_r (Stringify.draft r)) at 1.
  change (cleaned (Stringify.draft r ++ [])) with (cleaned ([] ++ Stringify.draft r ++ [])).
  rewrite (@cleaned_enclosed [] [] body (Stringify.draft r));
    [symmetry; exact E | reflexivity | reflexivity |].
  rewrite removeAll_not_In by assumption. exact E.
Qed.

Section ReadBack.
Context {NS : NumberSemantics}.
Variable generateText : jsstring -> jsstring.

(** X17. An answer that is the text [main] writes for a record is read as
    that record, its title sanitized once more and the supplied tags
    merged in, as long as the record holds no U+200B and its body is
    trimmed and not empty. *)
Theorem written_text_is_read_back (r : DraftRecord) (inputTags : list jsstring) :
  ~ In ZWSP (title r) -> ~ In ZWSP (draftBody r) ->
  (forall t, In t (tags r) -> ~ In ZWSP t) ->
  trim (draftBody r) = draftBody r -> isEmpty (draftBody r) = false ->
  exists t, sanitizeTitle (VString (title r)) = Normal t /\
    main generateText (Stringify.draft r) inputTags
    = Normal {| title := t; draftBody := draftBody r;
                tags := mergeTags (tags r) inputTags |}.
Proof.
  intros Ht Hb Hg Htrim Hne.
  set (props := [(u "title", VString (title r));
                 (u "draftBody", VString (draftBody r));
                 (u "tags", VArray (map VString (tags r)))]).
  assert (Hx : extractJsonFlexible (Stringify.draft r) = VObject props).
  { unfold extractJsonFlexible. rewrite cleaned_draft by assumption.
    unfold JSON.parse, JSON.parseWith.
    assert (E : JSON.skipWS (Stringify.draft r) = Stringify.draft r) by reflexivity.
    rewrite E. rewrite StringifyFacts.parseValue_draft; [reflexivity|].
    apply StringifyFacts.fuel_for_draft. }
  assert (Hp : parsedOf generateText (Stringify.draft r) = VObject props).
  { unfold parsedOf. rewrite Hx. reflexivity. }
  eexists. split; [apply sanitizeTitle_string|].
  unfold main. rewrite (extract_object _ _ Hp).
  unfold fromParsed. cbn [Get].
  change (member (u "title") props) with (VString (title r)).
  change (member (u "draftBody") props) with (VString (draftBody r)).
  change (member (u "tags") props) with (VArray (map VString (tags r))).
  cbn [bind].
  rewrite sanitizeTitle_string, StringOrEmpty_string. cbn [bind].
  rewrite mapM_ToString_strings.
  cbn [bind draftBody title tags]. rewrite Htrim, Hne. reflexivity.
Qed.

End ReadBack.

(** *** Closed instances, continued *)

Lemma inputTags_are_clean_witness :
  In (u "b") (inputTagsOf (Some (u " a, b ,,c , "))) /\
  isEmpty (u "b") = false /\ ~ In 44%N (u "b") /\ trim (u "b") = u "b".
Proof.
  assert (H : In (u "b") (inputTagsOf (Some (u " a, b ,,c , "))))
    by (vm_compute; right; left; reflexivity).
  exact (conj H (@inputTags_are_clean (Some (u " a, b ,,c , ")) (u "b") H)).
Defined.

Lemma inputTags_of_blank_witness :
  forallb (fun c => isWhiteSpace c || (c =? 44)%N) (u " , ,, ") = true /\
  inputTagsOf (Some (u " , ,, ")) = [].
Proof.
  split; [vm_compute; reflexivity|].
  apply (@inputTags_of_blank (Some (u " , ,, "))).
  intros s E. injection E as <-. vm_compute. reflexivity.
Defined.

Lemma inputTags_round_trip_witness :
  join [44%N] [u "note"; u "AI tools"] = u "note,AI tools" /\
  inputTagsOf (Some (join [44%N] [u "note"; u "AI tools"])) = [u "note"; u "AI tools"].
Proof.
  split; [vm_compute; reflexivity|].
  apply (@inputTags_round_trip [u "note"; u "AI tools"]).
  intros t [<- | [<- | []]]; (split; [vm_compute; reflexivity|]);
    (split; [|vm_compute; reflexivity]); vm_compute; intuition discriminate.
Defined.

Lemma mergeTags_keeps_the_tags_in_front_witness :
  NoDup [u "x"; u "y"] /\
  newTags [u "x"; u "y"] [u "z"; u "y"; u "z"; u "w"] = [u "z"; u "z"; u "w"] /\
  mergeTags [u "x"; u "y"] [u "z"; u "y"; u "z"; u "w"]
  = [u "x"; u "y"] ++ Set_of (newTags [u "x"; u "y"] [u "z"; u "y"; u "z"; u "w"]).
Proof.
  assert (H : NoDup [u "x"; u "y"]).
  { repeat constructor; vm_compute; intuition discriminate. }
  split; [exact H|]. split; [vm_compute; reflexivity|].
  exact (@mergeTags_keeps_the_tags_in_front
           [u "x"; u "y"] [u "z"; u "y"; u "z"; u "w"] H).
Defined.

Lemma deriveTitle_of_blank_text_witness :
  forallb isWhiteSpace ([32%N; LF; NBSP]) = true /\
  deriveTitleFromText [32%N; LF; NBSP] = Normal placeholderTitle.
Proof.
  split; [vm_compute; reflexivity|].
  apply (@deriveTitle_of_blank_text _ [32%N; LF; NBSP]). vm_compute. reflexivity.
Defined.

Lemma deriveTitle_of_fenced_lines_witness :
  nonblankLines (u "```js alert" ++ [LF] ++ u "```") = [u "```js alert"; u "```"] /\
  deriveTitleFromText (u "```js alert" ++ [LF] ++ u "```")
  = sanitizeTitle (VString (u "```js alert")).
Proof.
  split; [vm_compute; reflexivity|].
  apply (@deriveTitle_of_fenced_lines _ (u "```js alert" ++ [LF] ++ u "```")
           (u "```js alert") [u "```"]).
  - vm_compute. reflexivity.
  - intros l [<- | [<- | []]]; [exists (u "js alert") | exists []]; reflexivity.
Defined.

Lemma slicedCandidate_spans_the_braces_witness :
  slicedCandidate (u "so {a} and {b}.") = Some (u "{a} and {b}") /\
  exists pre mid post,
    u "so {a} and {b}." = pre ++ ([123%N] ++ mid ++ [125%N]) ++ post /\
    u "{a} and {b}" = [123%N] ++ mid ++ [125%N] /\
    ~ In 123%N pre /\ ~ In 125%N post.
Proof.
  assert (H : slicedCandidate (u "so {a} and {b}.") = Some (u "{a} and {b}"))
    by (vm_compute; reflexivity).
  exact (conj H (@slicedCandidate_spans_the_braces _ _ H)).
Defined.

Lemma slicedCandidate_of_braces_witness :
  (~ In 123%N (u "so ") /\ ~ In 125%N (u ".")) /\
  slicedCandidate (u "so " ++ ([123%N] ++ u "a} and {b" ++ [125%N]) ++ u ".")
  = Some ([123%N] ++ u "a} and {b" ++ [125%N]).
Proof.
  assert (H1 : ~ In 123%N (u "so ")) by (vm_compute; intuition discriminate).
  assert (H2 : ~ In 125%N (u ".")) by (vm_compute; intuition discriminate).
  exact (conj (conj H1 H2) (@slicedCandidate_of_braces (u "so ") (u "a} and {b") (u ".") H1 H2)).
Defined.

Lemma title_is_trimmed_witness :
  main noRepair blankLineProse [u "x"] =
    Normal {| title := u "Title"; draftBody := u "Title" ++ [LF] ++ u "Body"; tags := [u "x"] |}
  /\ trim (u "Title") = u "Title".
Proof.
  split; [vm_compute; reflexivity|].
  apply (@title_is_trimmed _ noRepair blankLineProse [u "x"]
           {| title := u "Title"; draftBody := u "Title" ++ [LF] ++ u "Body"; tags := [u "x"] |}).
  vm_compute. reflexivity.
Defined.

Lemma body_is_trimmed_or_the_raw_text_witness :
  extract noRepair paddedBodyJson =
    Normal {| title := u "T"; draftBody := u "B"; tags := [] |}
  /\ ((trim (u "B") = u "B" /\ isEmpty (u "B") = false) \/ u "B" = paddedBodyJson)
  /\ (u "B" = [] -> paddedBodyJson = []).
Proof.
  split; [vm_compute; reflexivity|].
  apply (@body_is_trimmed_or_the_raw_text _ noRepair paddedBodyJson
           {| title := u "T"; draftBody := u "B"; tags := [] |}).
  vm_compute. reflexivity.
Defined.

Lemma missing_title_gives_placeholder_witness :
  extract noRepair (dq (u "{'draftBody':' B','tags':['a']}")) =
    Normal {| title := placeholderTitle; draftBody := u "B"; tags := [u "a"] |}
  /\ placeholderTitle = placeholderTitle /\ u "B" = trim (u " B")
  /\ fromParsed (VObject [(u "draftBody", VString (u " B"));
                          (u "tags", VArray [VString (u "a")])])
     = Normal {| title := placeholderTitle; draftBody := u "B"; tags := [u "a"] |}.
Proof.
  split; [vm_compute; reflexivity|].
  apply (@missing_title_gives_placeholder _ noRepair
           (dq (u "{'draftBody':' B','tags':['a']}"))
           [(u "draftBody", VString (u " B")); (u "tags", VArray [VString (u "a")])]
           (u " B")
           {| title := placeholderTitle; draftBody := u "B"; tags := [u "a"] |});
    vm_compute; reflexivity.
Defined.

Lemma repair_is_not_consulted_witness :
  ToBoolean (extractJsonFlexible proseJson) = true /\
  main noRepair proseJson [] = main (fun _ => helloJson) proseJson [].
Proof.
  split; [vm_compute; reflexivity|].
  apply (@repair_is_not_consulted _ noRepair (fun _ => helloJson) proseJson []).
  vm_compute. reflexivity.
Defined.

Lemma answers_without_a_brace_witness :
  (~ In 123%N plainProse /\ ~ In 123%N (noRepair plainProse)) /\
  main noRepair plainProse [u "x"; u "x"] =
    (r <- fromRawText plainProse ;;
     Normal {| title := title r; draftBody := draftBody r; tags := Set_of [u "x"; u "x"] |}).
Proof.
  assert (H1 : ~ In 123%N plainProse) by (vm_compute; intuition discriminate).
  assert (H2 : ~ In 123%N (noRepair plainProse)) by (vm_compute; intuition discriminate).
  exact (conj (conj H1 H2)
              (@answers_without_a_brace _ noRepair plainProse [u "x"; u "x"] H1 H2)).
Defined.

Lemma only_a_conversion_fails_witness :
  main noRepair toStringTitleJson [] = Throw TypeError /\
  TypeError <> SyntaxError /\
  exists props, parsedOf noRepair toStringTitleJson = VObject props /\
    (isStructured (member (u "title") props) = true \/
     isStructured (member (u "draftBody") props) = true \/
     exists elements,
       member (u "tags") props = VArray elements /\
       existsb isStructured elements = true).
Proof.
  assert (H : main noRepair toStringTitleJson [] = Throw TypeError)
    by (vm_compute; reflexivity).
  exact (conj H (@only_a_conversion_fails _ noRepair toStringTitleJson [] TypeError H)).
Defined.

Lemma written_text_is_read_back_witness :
  exists t, sanitizeTitle (VString (u "# Hi")) = Normal t /\
    main noRepair
      (Stringify.draft {| title := u "# Hi"; draftBody := u "B"; tags := [u "a"] |})
      [u "b"]
    = Normal {| title := t; draftBody := u "B"; tags := mergeTags [u "a"] [u "b"] |}.
Proof.
  apply (@written_text_is_read_back _ noRepair
           {| title := u "# Hi"; draftBody := u "B"; tags := [u "a"] |} [u "b"]).
  - vm_compute. intuition discriminate.
  - vm_compute. intuition discriminate.
  - intros t [<- | []]. vm_compute. intuition discriminate.
  - vm_compute. reflexivity.
  - vm_compute. reflexivity.
Defined.
